(** * BLI::FixedArrayAllocator

    A shallow embedding of [source/blender/blenlib/BLI_fixed_array_allocator.hpp]
    and the properties of its free-list lanes, master list and scoped handles.

    Conventions of the embedding:
    - [uint] values are integers in [0, 2^32); every [uint] operation of the
      source is written with its wrap-around ([uint_sub], [uint_add], [uint_mul]).
    - [void *] is an address in [Z]; [nullptr] is [0].
    - member functions are computations in a small state and error monad
      [M St A := St -> result A * St]; the state survives a failure, as the
      object survives a thrown failure in C++.
    - a C++ reference to an object is the key of that object in a store. *)

From Stdlib Require Import ZArith Lia.
From stdpp Require Import base numbers option list gmap.

Local Open Scope Z_scope.

(** ** Machine integers and pointers *)

Definition uint_modulus : Z := 2 ^ 32.

Definition is_uint (z : Z) : Prop := 0 <= z < uint_modulus.

Definition to_uint (z : Z) : Z := z mod uint_modulus.

Definition uint_add (a b : Z) : Z := to_uint (a + b).
Definition uint_sub (a b : Z) : Z := to_uint (a - b).
Definition uint_mul (a b : Z) : Z := to_uint (a * b).

Definition ptr : Type := Z.
Definition nullptr : ptr := 0.

(** ** Failures and the state monad *)

Inductive error : Type :=
  | AssertionFailure      (* a BLI_assert that does not hold *)
  | OutOfMemory           (* the underlying allocation failed *)
  | InvalidFree           (* MEM_freeN on an address that is not a live block *)
  | InvalidConfiguration  (* malformed construction parameters *)
  | DanglingReference.    (* a reference to an object that is not in the store *)

Inductive result (A : Type) : Type :=
  | Ok (a : A)
  | Err (e : error).
Arguments Ok {A} a.
Arguments Err {A} e.

Definition M (St A : Type) : Type := St -> result A * St.

Definition ret {St A} (x : A) : M St A := fun s => (Ok x, s).

Definition fail {St A} (e : error) : M St A := fun s => (Err e, s).

Definition bind {St A B} (m : M St A) (f : A -> M St B) : M St B :=
  fun s => match m s with
           | (Ok x, s') => f x s'
           | (Err e, s') => (Err e, s')
           end.

Definition get {St} : M St St := fun s => (Ok s, s).
Definition put {St} (s : St) : M St unit := fun _ => (Ok tt, s).

Notation "'do' x <- m ; k" := (bind m (fun x => k))
  (at level 10, x name, m at level 100, k at level 200, only parsing).
Notation "'do_' m ; k" := (bind m (fun _ => k))
  (at level 10, m at level 100, k at level 200, only parsing).

(** [BLI_assert(c)], as a checked assertion. *)
Definition BLI_assert {St} (c : bool) : M St unit :=
  if c then ret tt else fail AssertionFailure.

(** Runs a computation on the first (resp. second) component of a pair. *)
Definition on_fst {S1 S2 A} (m : M S1 A) : M (S1 * S2) A :=
  fun s => let '(r, s1) := m (fst s) in (r, (s1, snd s)).
Definition on_snd {S1 S2 A} (m : M S2 A) : M (S1 * S2) A :=
  fun s => let '(r, s2) := m (snd s) in (r, (fst s, s2)).

(** ** The guarded allocator (MEM_guardedalloc) *)

(** Modelled from the spec: the state of the underlying allocator behind
    [MEM_mallocN_aligned] and [MEM_freeN], whose code is not in this header.
    [blocks] are the live blocks (address, capacity in bytes) in allocation
    order, [brk] is the first address never handed out, [limit] the end of the
    address space available, and [released] the log of the addresses passed to
    [MEM_freeN], in call order (the instrumented allocation counter). *)
Record heap : Type := {
  blocks : list (ptr * Z);
  brk : Z;
  limit : Z;
  released : list ptr
}.

Definition block_addrs (h : heap) : list ptr := (blocks h).*1.

Definition block_size (h : heap) (p : ptr) : option Z :=
  (fun ib : nat * (ptr * Z) => ib.2.2) <$> list_find (fun b => b.1 = p) (blocks h).

Definition align_up (a alignment : Z) : Z :=
  (a + alignment - 1) / alignment * alignment.

(** Modelled from the spec: [MEM_mallocN_aligned(len, alignment, name)]
    "allocates a fresh block of exactly [len] bytes, aligned to a fixed
    power-of-two boundary"; it "fails with an OutOfMemory condition if the
    underlying allocation fails". The fresh address is the first aligned
    address that was never handed out. *)
Definition MEM_mallocN_aligned (len alignment : Z) : M heap ptr :=
  fun h =>
    let p := align_up (brk h) alignment in
    if p + len <=? limit h then
      (Ok p, {| blocks := blocks h ++ [(p, len)];
                brk := p + Z.max len 1;
                limit := limit h;
                released := released h |})
    else (Err OutOfMemory, h).

(** Modelled from the spec: [MEM_freeN(ptr)] releases a live block; an
    address that is not a live block (never allocated, or already freed)
    is an invalid free. *)
Definition MEM_freeN (p : ptr) : M heap unit :=
  fun h =>
    if bool_decide (p ∈ block_addrs h) then
      (Ok tt, {| blocks := filter (fun b => b.1 ≠ p) (blocks h);
                 brk := brk h;
                 limit := limit h;
                 released := released h ++ [p] |})
    else (Err InvalidFree, h).

(** ** SmallVector and SmallStack (BLI_small_vector.hpp, BLI_small_stack.hpp) *)

(** Modelled from the spec: a [SmallVector<T>] is a growable ordered
    sequence, a list in index order; [size()] is its length,
    [append_n_times(value, n)] appends [n] copies of [value], and
    [operator[]] asserts that the index is in range. *)
Definition SmallVector_size {T} (v : list T) : Z := Z.of_nat (length v).

Definition SmallVector_append {T} (v : list T) (value : T) : list T :=
  v ++ [value].

Definition SmallVector_append_n_times {T} (v : list T) (value : T) (n : Z)
  : list T :=
  v ++ replicate (Z.to_nat n) value.

(** Modelled from the spec: a [SmallStack<T>] is a LIFO stack, a list whose
    head is the top; [pop()] asserts that the stack is not empty. *)
Definition SmallStack_size {T} (s : list T) : Z := Z.of_nat (length s).
Definition SmallStack_push {T} (s : list T) (value : T) : list T := value :: s.
Definition SmallStack_pop {T} (s : list T) : option (T * list T) :=
  match s with
  | [] => None
  | top :: rest => Some (top, rest)
  end.

(** ** class FixedArrayAllocator *)

Record FixedArrayAllocator : Type := {
  m_all_pointers : list ptr;
  m_pointer_stacks : list (list ptr);
  m_array_length : Z
}.

Definition set_pointer_stacks (stacks : list (list ptr))
    (a : FixedArrayAllocator) : FixedArrayAllocator :=
  {| m_all_pointers := m_all_pointers a;
     m_pointer_stacks := stacks;
     m_array_length := m_array_length a |}.

Definition set_all_pointers (ptrs : list ptr)
    (a : FixedArrayAllocator) : FixedArrayAllocator :=
  {| m_all_pointers := ptrs;
     m_pointer_stacks := m_pointer_stacks a;
     m_array_length := m_array_length a |}.

(** [FixedArrayAllocator(uint array_length) : m_array_length(array_length) {}].
    The constructor has an empty body and no check of its argument: in the
    result type it always yields [Ok]. *)
Definition FixedArrayAllocator_ctor (array_length : Z)
  : result FixedArrayAllocator :=
  Ok {| m_all_pointers := [];
        m_pointer_stacks := [];
        m_array_length := array_length |}.

(** [~FixedArrayAllocator()]: [MEM_freeN] on every entry of the master list,
    in order. *)
Fixpoint free_all (ptrs : list ptr) : M heap unit :=
  match ptrs with
  | [] => ret tt
  | p :: rest => do_ MEM_freeN p; free_all rest
  end.

Definition FixedArrayAllocator_dtor : M (FixedArrayAllocator * heap) unit :=
  do this <- on_fst get;
  on_snd (free_all (m_all_pointers this)).

Definition array_size (a : FixedArrayAllocator) : Z := m_array_length a.

(** [stack_for_element_size]: the returned reference is the index of the
    lane in [m_pointer_stacks]. *)
Definition stack_for_element_size (element_size : Z)
  : M FixedArrayAllocator nat :=
  do_ BLI_assert (0 <? element_size);
  let index := uint_sub element_size 1 in
  do this <- get;
  do_ (if SmallVector_size (m_pointer_stacks this) <=? index then
         put (set_pointer_stacks
                (SmallVector_append_n_times (m_pointer_stacks this) []
                   (uint_add (uint_sub index
                                (SmallVector_size (m_pointer_stacks this))) 1))
                this)
       else ret tt);
  do this <- get;
  do_ BLI_assert (index <? SmallVector_size (m_pointer_stacks this));
  ret (Z.to_nat index).

(** The operations of the source on the lane behind a reference. *)
Definition stack_size (stack : nat) : M FixedArrayAllocator Z :=
  do this <- get;
  ret (SmallStack_size (m_pointer_stacks this !!! stack)).

Definition stack_pop (stack : nat) : M FixedArrayAllocator ptr :=
  do this <- get;
  match SmallStack_pop (m_pointer_stacks this !!! stack) with
  | Some (top, rest) =>
      do_ put (set_pointer_stacks
                 (<[stack := rest]> (m_pointer_stacks this)) this);
      ret top
  | None => fail AssertionFailure
  end.

Definition stack_push (stack : nat) (value : ptr) : M FixedArrayAllocator unit :=
  do this <- get;
  put (set_pointer_stacks
         (<[stack := SmallStack_push (m_pointer_stacks this !!! stack) value]>
            (m_pointer_stacks this))
         this).

Definition allocate_array (element_size : Z)
  : M (FixedArrayAllocator * heap) ptr :=
  do stack <- on_fst (stack_for_element_size element_size);
  do n <- on_fst (stack_size stack);
  if 0 <? n then on_fst (stack_pop stack)
  else
    do this <- on_fst get;
    do p <- on_snd (MEM_mallocN_aligned
                      (uint_mul (m_array_length this) element_size) 64);
    do this <- on_fst get;
    do_ on_fst (put (set_all_pointers
                       (SmallVector_append (m_all_pointers this) p) this));
    ret p.

Definition deallocate_array (p : ptr) (element_size : Z)
  : M FixedArrayAllocator unit :=
  do stack <- stack_for_element_size element_size;
  stack_push stack p.

(** The free list serving element size [S]: lane [S - 1], empty while the
    lane does not exist yet. *)
Definition lane (a : FixedArrayAllocator) (S : Z) : list ptr :=
  default [] (m_pointer_stacks a !! Z.to_nat (S - 1)).

(** ** class ScopedAllocation *)

(** [m_allocator] is a reference: the key of the allocator in the store. *)
Record ScopedAllocation : Type := {
  m_allocator : nat;
  m_ptr : ptr;
  m_element_size : Z
}.

(** The objects of a program: allocators and scoped handles, each under the
    key that stands for its address. *)
Record objects : Type := {
  allocators : gmap nat FixedArrayAllocator;
  scoped : gmap nat ScopedAllocation
}.

Definition scoped_load (x : nat) : M objects ScopedAllocation :=
  fun w => match scoped w !! x with
           | Some o => (Ok o, w)
           | None => (Err DanglingReference, w)
           end.

Definition scoped_store (x : nat) (o : ScopedAllocation) : M objects unit :=
  fun w => (Ok tt, {| allocators := allocators w;
                      scoped := <[x := o]> (scoped w) |}).

(** A member call through the reference [r]. *)
Definition allocator_call {A} (r : nat) (m : M FixedArrayAllocator A)
  : M objects A :=
  fun w => match allocators w !! r with
           | Some a =>
               let '(res, a') := m a in
               (res, {| allocators := <[r := a']> (allocators w);
                        scoped := scoped w |})
           | None => (Err DanglingReference, w)
           end.

(** [ScopedAllocation(FixedArrayAllocator &allocator, T *ptr, uint element_size)] *)
Definition ScopedAllocation_ctor (this allocator : nat) (p : ptr)
    (element_size : Z) : M objects unit :=
  scoped_store this {| m_allocator := allocator;
                       m_ptr := p;
                       m_element_size := element_size |}.

(** [ScopedAllocation(ScopedAllocation &&other)]: the three members are
    initialised from [other], then [other.m_ptr = nullptr] is written
    through the reference. *)
Definition ScopedAllocation_move_ctor (this other : nat) : M objects unit :=
  do o <- scoped_load other;
  do_ scoped_store this {| m_allocator := m_allocator o;
                           m_ptr := m_ptr o;
                           m_element_size := m_element_size o |};
  do o' <- scoped_load other;
  scoped_store other {| m_allocator := m_allocator o';
                        m_ptr := nullptr;
                        m_element_size := m_element_size o' |}.

(** [~ScopedAllocation()] *)
Definition ScopedAllocation_dtor (this : nat) : M objects unit :=
  do o <- scoped_load this;
  if bool_decide (m_ptr o ≠ nullptr) then
    allocator_call (m_allocator o)
      (deallocate_array (m_ptr o) (m_element_size o))
  else ret tt.

(** [operator=(ScopedAllocation &&other)]: the destructor of [this], then
    the move constructor in place. *)
Definition ScopedAllocation_move_assign (this other : nat) : M objects unit :=
  do_ ScopedAllocation_dtor this;
  ScopedAllocation_move_ctor this other.

(** A handle after [m_ptr = nullptr] was written to it. *)
Definition moved_from (o : ScopedAllocation) : ScopedAllocation :=
  {| m_allocator := m_allocator o;
     m_ptr := nullptr;
     m_element_size := m_element_size o |}.

(** [operator T *() const] *)
Definition ScopedAllocation_get (o : ScopedAllocation) : ptr := m_ptr o.

(** ** Call sequences on one allocator *)

Inductive call : Type :=
  | Allocate (element_size : Z)
  | Deallocate (p : ptr) (element_size : Z).

(** One call; [Some p] is the buffer an [allocate_array] returned. *)
Definition run_call (c : call) : M (FixedArrayAllocator * heap) (option ptr) :=
  match c with
  | Allocate element_size =>
      do p <- allocate_array element_size; ret (Some p)
  | Deallocate p element_size =>
      do_ on_fst (deallocate_array p element_size); ret None
  end.

(** A sequence of calls, each run whatever the outcome of the ones before;
    the log pairs each call with its outcome. *)
Fixpoint run_calls (cs : list call) (s : FixedArrayAllocator * heap)
  : list (call * result (option ptr)) * (FixedArrayAllocator * heap) :=
  match cs with
  | [] => ([], s)
  | c :: rest =>
      let '(r, s1) := run_call c s in
      let '(log, s2) := run_calls rest s1 in
      ((c, r) :: log, s2)
  end.

(** The addresses of the blocks allocated since the heap was [h0]. *)
Definition allocated_since (h0 h : heap) : list ptr :=
  (drop (length (blocks h0)) (blocks h)).*1.

(** ** Invariants *)

(** The lane vector once [stack_for_element_size(S)] has run: as many
    empty lanes appended as it takes to have [S] of them. *)
Definition grown (stacks : list (list ptr)) (S : Z) : list (list ptr) :=
  stacks ++ replicate (Z.to_nat S - length stacks)%nat [].

(** Every live block lies below [brk], at a non-null address, and no two
    live blocks share an address. *)
Definition heap_wf (h : heap) : Prop :=
  0 < brk h ∧
  Forall (fun b : ptr * Z => 0 < b.1 < brk h) (blocks h) ∧
  NoDup (block_addrs h).

(** The allocator after the lane for [S] was created. *)
Definition with_lane (a : FixedArrayAllocator) (S : Z) : FixedArrayAllocator :=
  set_pointer_stacks (grown (m_pointer_stacks a) S) a.

(** The allocator whose lane for [S] is replaced by [l]. *)
Definition set_lane (a : FixedArrayAllocator) (S : Z) (l : list ptr)
  : FixedArrayAllocator :=
  set_pointer_stacks
    (<[Z.to_nat (S - 1) := l]> (grown (m_pointer_stacks a) S)) a.

(** The blocks allocated since [h0] are exactly those of the master list,
    in order, and nothing was released. *)
Definition owns (h0 : heap) (s : FixedArrayAllocator * heap) : Prop :=
  heap_wf s.2 ∧
  (∃ new, blocks s.2 = blocks h0 ++ new ∧ new.*1 = m_all_pointers s.1) ∧
  released s.2 = released h0.

(** Element sizes are [uint] values. *)
Definition call_typed (c : call) : Prop :=
  match c with
  | Allocate element_size => is_uint element_size
  | Deallocate _ element_size => is_uint element_size
  end.

#[global] Instance call_eq_dec : EqDecision call.
Proof. solve_decision. Defined.

(** ** States of the examples *)

(** An empty heap, addresses from 1 to 2^40. *)
Definition empty_heap : heap :=
  {| blocks := []; brk := 1; limit := 2 ^ 40; released := [] |}.

(** An allocator bound to 100 elements per array, before any call. *)
Definition allocator_100 : FixedArrayAllocator :=
  {| m_all_pointers := []; m_pointer_stacks := []; m_array_length := 100 |}.

(** The same allocator and heap after [allocate_array(4)] returned the
    block at address 64, which is checked out. *)
Definition checked_out_allocator : FixedArrayAllocator :=
  {| m_all_pointers := [64];
     m_pointer_stacks := [[]; []; []; []];
     m_array_length := 100 |}.

Definition checked_out_heap : heap :=
  {| blocks := [(64, 400)]; brk := 464; limit := 2 ^ 40; released := [] |}.

(** The allocator and heap after [allocate_array(4)], its return, a second
    [allocate_array(4)] and an [allocate_array(8)]. *)
Definition two_blocks_allocator : FixedArrayAllocator :=
  {| m_all_pointers := [64; 512];
     m_pointer_stacks := [[]; []; []; []; []; []; []; []];
     m_array_length := 100 |}.

Definition two_blocks_heap : heap :=
  {| blocks := [(64, 400); (512, 800)];
     brk := 1312;
     limit := 2 ^ 40;
     released := [] |}.

(** The outcome of returning the block at 64 under size 4 and then calling
    [allocate_array(8)], [allocate_array(4)], [deallocate_array(64, 4)] and
    [allocate_array(8)] on the checked-out state. *)
Definition isolation_log : list (call * result (option ptr)) :=
  [(Deallocate 64 4, Ok None); (Allocate 8, Ok (Some 512));
   (Allocate 4, Ok (Some 64)); (Deallocate 64 4, Ok None);
   (Allocate 8, Ok (Some 1344))].

Definition isolation_state : FixedArrayAllocator * heap :=
  ({| m_all_pointers := [64; 512; 1344];
      m_pointer_stacks := [[]; []; []; [64]; []; []; []; []];
      m_array_length := 100 |},
   {| blocks := [(64, 400); (512, 800); (1344, 800)];
      brk := 2144;
      limit := 2 ^ 40;
      released := [] |}).

(** Handles on buffers of the allocator under key 0, and stores with them:
    [handle_64] under key 1, [handle_512] under key 2. *)
Definition handle_64 : ScopedAllocation :=
  {| m_allocator := 0%nat; m_ptr := 64; m_element_size := 4 |}.

Definition handle_512 : ScopedAllocation :=
  {| m_allocator := 0%nat; m_ptr := 512; m_element_size := 8 |}.

Definition one_handle : objects :=
  {| allocators := {[0%nat := checked_out_allocator]};
     scoped := {[1%nat := handle_64]} |}.

Definition two_handles : objects :=
  {| allocators := {[0%nat := checked_out_allocator]};
     scoped := <[2%nat := handle_512]> {[1%nat := handle_64]} |}.

(** ** The typed and scoped forms of allocation *)

(** [template<typename T> T *allocate_array()]: [allocate_array(sizeof(T))].
    [sizeof(T)] is a [size_t]; it converts to the [uint] parameter. *)
Definition allocate_array_typed (sizeof_T : Z)
  : M (FixedArrayAllocator * heap) ptr :=
  allocate_array (to_uint sizeof_T).

(** [template<typename T> void deallocate_array(T *ptr)] *)
Definition deallocate_array_typed (p : ptr) (sizeof_T : Z)
  : M FixedArrayAllocator unit :=
  deallocate_array p (to_uint sizeof_T).

(** A member call through the reference [r] that also uses the heap. *)
Definition allocator_call_heap {A} (r : nat)
    (m : M (FixedArrayAllocator * heap) A) : M (objects * heap) A :=
  fun s => match allocators s.1 !! r with
           | Some a =>
               let '(res, (a', h')) := m (a, s.2) in
               (res, ({| allocators := <[r := a']> (allocators s.1);
                         scoped := scoped s.1 |}, h'))
           | None => (Err DanglingReference, s)
           end.

(** [ScopedAllocation<void> allocate_array_scoped(uint element_size)]: the
    returned handle is constructed in the object [result] of the caller. *)
Definition allocate_array_scoped (this result : nat) (element_size : Z)
  : M (objects * heap) unit :=
  do p <- allocator_call_heap this (allocate_array element_size);
  on_fst (ScopedAllocation_ctor result this p element_size).

(** [template<typename T> ScopedAllocation<T> allocate_array_scoped()] *)
Definition allocate_array_scoped_typed (this result : nat) (sizeof_T : Z)
  : M (objects * heap) unit :=
  do p <- allocator_call_heap this (allocate_array_typed sizeof_T);
  on_fst (ScopedAllocation_ctor result this p (to_uint sizeof_T)).

(** ** Callers that pair each buffer with its element size *)

(** The element size of a call, and the largest one of a sequence. *)
Definition call_size (c : call) : Z :=
  match c with
  | Allocate element_size => element_size
  | Deallocate _ element_size => element_size
  end.

Definition largest_size (cs : list call) : Z :=
  foldr (fun c m => Z.max (call_size c) m) 0 cs.

(** Removes the first occurrence of a checkout, if there is one. *)
Fixpoint take_back (x : ptr * Z) (out : list (ptr * Z))
  : option (list (ptr * Z)) :=
  match out with
  | [] => None
  | y :: rest =>
      if decide (x = y) then Some rest else (y ::.) <$> take_back x rest
  end.

(** The checkouts after one logged call: a successful [allocate_array(S)]
    adds the pair of the buffer and [S]; a successful
    [deallocate_array(p, S)] must give back a pair that is checked out;
    a failed call changes nothing. *)
Definition track (out : list (ptr * Z)) (e : call * result (option ptr))
  : option (list (ptr * Z)) :=
  match e with
  | (Allocate element_size, Ok (Some p)) => Some ((p, element_size) :: out)
  | (Allocate _, _) => Some out
  | (Deallocate p element_size, Ok _) => take_back (p, element_size) out
  | (Deallocate _ _, Err _) => Some out
  end.

(** The checkouts after a log, [None] when some [deallocate_array] gave
    back a pair that was not checked out. *)
Fixpoint checkouts (out : list (ptr * Z))
    (log : list (call * result (option ptr))) : option (list (ptr * Z)) :=
  match log with
  | [] => Some out
  | e :: rest =>
      match track out e with
      | Some out' => checkouts out' rest
      | None => None
      end
  end.

(** A buffer for element size [S] of an allocator of array length [N]:
    a live block of the capacity that [allocate_array(S)] requests, at a
    non-null multiple of 64. *)
Definition buffer_for (N : Z) (h : heap) (S : Z) (p : ptr) : Prop :=
  block_size h p = Some (uint_mul N S) ∧ p mod 64 = 0 ∧ p ≠ nullptr.

(** The pairing kept by such callers: the buffers in the lanes and the
    checked-out ones are together the master list, and each is a buffer
    for the size of its lane or of its checkout. *)
Definition paired (s : FixedArrayAllocator * heap) (out : list (ptr * Z))
  : Prop :=
  concat (m_pointer_stacks s.1) ++ out.*1 ≡ₚ m_all_pointers s.1 ∧
  (∀ (i : nat) l p, m_pointer_stacks s.1 !! i = Some l → p ∈ l →
     buffer_for (m_array_length s.1) s.2 (Z.of_nat i + 1) p) ∧
  (∀ p S, (p, S) ∈ out → buffer_for (m_array_length s.1) s.2 S p).

(** A caller that checks out two buffers of size 4, gives the first one
    back and checks out a buffer of size 8; and what it holds at the end. *)
Definition paired_calls : list call :=
  [Allocate 4; Allocate 4; Deallocate 64 4; Allocate 8].

Definition paired_out : list (ptr * Z) := [(960, 8); (512, 4)].

(** A heap with room for 99 bytes. *)
Definition small_heap : heap :=
  {| blocks := []; brk := 1; limit := 100; released := [] |}.

(** Stores with the allocator of 100 elements under key 0: without any
    handle; and with [handle_64] under key 1 and an emptied handle under
    key 2. *)
Definition no_handle : objects :=
  {| allocators := {[0%nat := allocator_100]}; scoped := ∅ |}.

Definition emptied_handle : objects :=
  {| allocators := {[0%nat := checked_out_allocator]};
     scoped := <[2%nat := moved_from handle_512]> {[1%nat := handle_64]} |}.

(** The five ways a call with a [uint] element size can go. *)
Inductive call_step
  : call → FixedArrayAllocator * heap → result (option ptr)
    → FixedArrayAllocator * heap → Prop :=
  | step_assert c a h :
      call_size c = 0 →
      call_step c (a, h) (Err AssertionFailure) (a, h)
  | step_reuse S a h top rest :
      1 <= S < uint_modulus →
      lane a S = top :: rest →
      call_step (Allocate S) (a, h) (Ok (Some top)) (set_lane a S rest, h)
  | step_fresh S a h p h' :
      1 <= S < uint_modulus →
      lane a S = [] →
      MEM_mallocN_aligned (uint_mul (m_array_length a) S) 64 h = (Ok p, h') →
      call_step (Allocate S) (a, h) (Ok (Some p))
        (set_all_pointers (m_all_pointers a ++ [p]) (with_lane a S), h')
  | step_out_of_memory S a h :
      1 <= S < uint_modulus →
      lane a S = [] →
      MEM_mallocN_aligned (uint_mul (m_array_length a) S) 64 h
      = (Err OutOfMemory, h) →
      call_step (Allocate S) (a, h) (Err OutOfMemory) (with_lane a S, h)
  | step_return p S a h :
      1 <= S < uint_modulus →
      call_step (Deallocate p S) (a, h) (Ok None)
        (set_lane a S (p :: lane a S), h).

(** * Properties *)

(** ** Machine arithmetic *)

Lemma uint_modulus_eq : uint_modulus = 4294967296.
Proof. reflexivity. Qed.

Lemma to_uint_small z : is_uint z → to_uint z = z.
Proof. intros Hz. apply Z.mod_small. exact Hz. Qed.

Lemma to_uint_is_uint z : is_uint (to_uint z).
Proof. apply Z.mod_pos_bound. rewrite uint_modulus_eq. lia. Qed.

Lemma uint_pred S : 1 <= S < uint_modulus → uint_sub S 1 = S - 1.
Proof. intros HS. apply to_uint_small. unfold is_uint. lia. Qed.

(** ** Lanes of a grown vector *)

Lemma set_pointer_stacks_id a : set_pointer_stacks (m_pointer_stacks a) a = a.
Proof. by destruct a. Qed.

Lemma grown_length stacks S :
  length (grown stacks S) = (length stacks `max` Z.to_nat S)%nat.
Proof. unfold grown. rewrite length_app, length_replicate. lia. Qed.

Lemma grown_enough stacks S :
  (Z.to_nat S ≤ length stacks)%nat → grown stacks S = stacks.
Proof.
  intros Hle. unfold grown.
  replace (Z.to_nat S - length stacks)%nat with 0%nat by lia.
  apply app_nil_r.
Qed.

Lemma grown_lookup_default stacks S (i : nat) :
  default [] (grown stacks S !! i) = default [] (stacks !! i).
Proof.
  unfold grown. destruct (decide (i < length stacks)%nat) as [Hlt|Hge].
  - by rewrite lookup_app_l.
  - rewrite lookup_app_r by lia. rewrite (lookup_ge_None_2 stacks) by lia.
    simpl. destruct (replicate _ _ !! _) as [x|] eqn:Hx; [|done].
    apply lookup_replicate in Hx as [-> _]. done.
Qed.

Lemma lookup_total_default (stacks : list (list ptr)) (i : nat) :
  stacks !!! i = default [] (stacks !! i).
Proof. rewrite list_lookup_total_alt. by destruct (stacks !! i). Qed.

Lemma lane_grown a S S' :
  lane (set_pointer_stacks (grown (m_pointer_stacks a) S) a) S' = lane a S'.
Proof. unfold lane. simpl. apply grown_lookup_default. Qed.

(** ** [stack_for_element_size] *)

Lemma stack_for_element_size_ok a S :
  1 <= S < uint_modulus →
  stack_for_element_size S a
  = (Ok (Z.to_nat (S - 1)),
     set_pointer_stacks (grown (m_pointer_stacks a) S) a).
Proof.
  intros HS. pose proof uint_modulus_eq as Hm.
  unfold stack_for_element_size, bind, BLI_assert, get, put, ret.
  destruct (Z.ltb_spec 0 S) as [_|]; [|lia].
  rewrite (uint_pred S HS). unfold SmallVector_size.
  destruct (Z.leb_spec (Z.of_nat (length (m_pointer_stacks a))) (S - 1))
    as [Hle|Hgt]; simpl.
  - unfold SmallVector_append_n_times, uint_add, uint_sub.
    rewrite (to_uint_small (S - 1 - _)) by (unfold is_uint; lia).
    rewrite to_uint_small by (unfold is_uint; lia).
    rewrite length_app, length_replicate.
    destruct (Z.ltb_spec (S - 1)
                (Z.of_nat (length (m_pointer_stacks a)
                           + Z.to_nat (S - 1 - Z.of_nat (length (m_pointer_stacks a)) + 1))))
      as [_|]; [|lia].
    do 2 f_equal. unfold grown. do 2 f_equal. lia.
  - destruct (Z.ltb_spec (S - 1) (Z.of_nat (length (m_pointer_stacks a))))
      as [_|]; [|lia].
    rewrite grown_enough by lia. by rewrite set_pointer_stacks_id.
Qed.

Lemma stack_for_element_size_zero a S :
  S <= 0 → stack_for_element_size S a = (Err AssertionFailure, a).
Proof.
  intros HS. unfold stack_for_element_size, bind, BLI_assert, fail.
  destruct (Z.ltb_spec 0 S); [lia|done].
Qed.

(** ** The effect of the two operations, in closed form *)

Lemma lane_with_lane a S S' : lane (with_lane a S) S' = lane a S'.
Proof. apply lane_grown. Qed.

Lemma lane_set_lane_eq a S l : 1 <= S → lane (set_lane a S l) S = l.
Proof.
  intros HS. unfold lane, set_lane. simpl.
  rewrite list_lookup_insert_eq; [done|]. rewrite grown_length. lia.
Qed.

Lemma lane_set_lane_ne a S S' l :
  1 <= S → 1 <= S' → S ≠ S' → lane (set_lane a S l) S' = lane a S'.
Proof.
  intros HS HS' Hne. unfold lane, set_lane. simpl.
  rewrite list_lookup_insert_ne by lia. apply grown_lookup_default.
Qed.

Lemma deallocate_array_ok a p S :
  1 <= S < uint_modulus →
  deallocate_array p S a = (Ok tt, set_lane a S (p :: lane a S)).
Proof.
  intros HS. unfold deallocate_array, bind.
  rewrite stack_for_element_size_ok by done.
  unfold stack_push, bind, get, put, SmallStack_push, set_lane, lane. simpl.
  by rewrite lookup_total_default, grown_lookup_default.
Qed.

Lemma deallocate_array_zero a p S :
  S <= 0 → deallocate_array p S a = (Err AssertionFailure, a).
Proof.
  intros HS. unfold deallocate_array, bind.
  by rewrite stack_for_element_size_zero.
Qed.

Lemma allocate_array_zero a h S :
  S <= 0 → allocate_array S (a, h) = (Err AssertionFailure, (a, h)).
Proof.
  intros HS. unfold allocate_array, bind, on_fst. simpl.
  by rewrite stack_for_element_size_zero.
Qed.

Lemma allocate_array_reuse a h S p rest :
  1 <= S < uint_modulus →
  lane a S = p :: rest →
  allocate_array S (a, h) = (Ok p, (set_lane a S rest, h)).
Proof.
  intros HS Hlane. unfold allocate_array, bind, on_fst. simpl.
  rewrite stack_for_element_size_ok by done. simpl.
  unfold lane in Hlane.
  unfold stack_size, stack_pop, bind, get, put, ret. simpl.
  rewrite lookup_total_default, grown_lookup_default, Hlane. simpl.
  rewrite lookup_total_default, grown_lookup_default, Hlane. simpl.
  done.
Qed.

Lemma allocate_array_fresh a h S :
  1 <= S < uint_modulus →
  lane a S = [] →
  allocate_array S (a, h)
  = match MEM_mallocN_aligned (uint_mul (m_array_length a) S) 64 h with
    | (Ok p, h') =>
        (Ok p, (set_all_pointers (m_all_pointers a ++ [p]) (with_lane a S), h'))
    | (Err e, h') => (Err e, (with_lane a S, h'))
    end.
Proof.
  intros HS Hlane. unfold allocate_array, bind, on_fst, on_snd. simpl.
  rewrite stack_for_element_size_ok by done. simpl.
  unfold lane in Hlane.
  unfold stack_size, bind, get, put, ret. simpl.
  rewrite lookup_total_default, grown_lookup_default, Hlane. simpl.
  fold (with_lane a S).
  destruct (MEM_mallocN_aligned _ 64 h) as [[p|e] h']; done.
Qed.

(** ** The guarded allocator *)

Lemma align_up_64 a :
  (align_up a 64) mod 64 = 0 ∧ (a <= align_up a 64 < a + 64).
Proof.
  unfold align_up. split.
  - apply Z.mod_mul. lia.
  - Z.to_euclidean_division_equations. lia.
Qed.

Lemma heap_wf_fresh h p : heap_wf h → brk h <= p → p ∉ block_addrs h.
Proof.
  intros (_ & Hbelow & _) Hp Hin. unfold block_addrs in Hin.
  apply list_elem_of_fmap in Hin as ([q l] & -> & Hin).
  rewrite Forall_forall in Hbelow. apply Hbelow in Hin. simpl in *. lia.
Qed.

Lemma malloc_failure len h e h' :
  MEM_mallocN_aligned len 64 h = (Err e, h') → h' = h ∧ e = OutOfMemory.
Proof.
  unfold MEM_mallocN_aligned. destruct (_ <=? _); intros [= <- <-]; done.
Qed.

Lemma malloc_success len h p h' :
  heap_wf h →
  MEM_mallocN_aligned len 64 h = (Ok p, h') →
  blocks h' = blocks h ++ [(p, len)] ∧ released h' = released h ∧
  limit h' = limit h ∧ brk h <= p ∧
  p mod 64 = 0 ∧ p ≠ nullptr ∧ (p ∉ block_addrs h) ∧ heap_wf h'.
Proof.
  intros Hwf. pose proof Hwf as (Hbrk & Hbelow & Hnodup).
  unfold MEM_mallocN_aligned. destruct (_ <=? _); [|done].
  intros [= <- <-]. simpl.
  destruct (align_up_64 (brk h)) as [Hmod Hrange].
  assert (align_up (brk h) 64 ∉ block_addrs h) as Hfresh
    by (apply heap_wf_fresh; [done|lia]).
  split_and!; try done; try lia.
  { unfold nullptr. lia. }
  unfold heap_wf. simpl. split_and!; [lia| |].
  - apply Forall_app. split.
    + eapply Forall_impl; [exact Hbelow|]. simpl. intros [q l] ?. simpl in *. lia.
    + apply Forall_singleton. simpl. lia.
  - unfold block_addrs. simpl. rewrite fmap_app. simpl.
    apply NoDup_app. split; [done|]. split.
    + intros q Hq Hq'. apply list_elem_of_singleton in Hq'. by subst.
    + apply NoDup_singleton.
Qed.

Lemma block_size_fresh h p len :
  p ∉ block_addrs h →
  block_size {| blocks := blocks h ++ [(p, len)]; brk := p + Z.max len 1;
                limit := limit h; released := released h |} p = Some len.
Proof.
  intros Hfresh. unfold block_size. simpl.
  assert (list_find (fun b : ptr * Z => b.1 = p) (blocks h ++ [(p, len)])
          = Some (length (blocks h), (p, len))) as ->; [|done].
  apply list_find_Some. split_and!.
  - by rewrite lookup_app_r, Nat.sub_diag by lia.
  - done.
  - intros j [q l] Hj Hlt. rewrite lookup_app_l in Hj by done.
    simpl. intros ->. apply Hfresh. unfold block_addrs.
    apply list_elem_of_fmap. exists (p, l). split; [done|].
    by eapply list_elem_of_lookup_2.
Qed.

Lemma filter_all {A} (P : A → Prop) `{!∀ x, Decision (P x)} (l : list A) :
  Forall P l → filter P l = l.
Proof.
  induction 1 as [|x l Hx _ IH]; [done|].
  by rewrite filter_cons_True, IH.
Qed.

(** Releasing, in order, the blocks allocated last gives back the heap as
    it was before them. *)
Lemma free_all_newest new : ∀ h old,
  NoDup (block_addrs h) →
  blocks h = old ++ new →
  ∃ h', free_all new.*1 h = (Ok tt, h') ∧
        blocks h' = old ∧
        released h' = released h ++ new.*1 ∧
        brk h' = brk h ∧ limit h' = limit h.
Proof.
  induction new as [|[p l] new IH]; intros h old Hnodup Hblocks.
  - exists h. simpl. rewrite !app_nil_r in *. done.
  - simpl. unfold bind, MEM_freeN.
    assert (p ∈ block_addrs h) as Hin.
    { unfold block_addrs. rewrite Hblocks, fmap_app. simpl.
      apply elem_of_app. right. apply list_elem_of_here. }
    rewrite bool_decide_eq_true_2 by done.
    unfold block_addrs in Hnodup. rewrite Hblocks, fmap_app in Hnodup.
    simpl in Hnodup. apply NoDup_app in Hnodup as (Hold & Hdisj & Hnew).
    apply NoDup_cons in Hnew as [Hp Hnew].
    assert (filter (fun b : ptr * Z => b.1 ≠ p) (blocks h) = old ++ new) as Hf.
    { rewrite Hblocks, filter_app, filter_cons_False by (simpl; tauto).
      f_equal.
      - apply filter_all.
        apply Forall_forall. intros [q l'] Hq. simpl. intros ->.
        apply (Hdisj p); [|apply list_elem_of_here].
        apply list_elem_of_fmap. by exists (p, l').
      - apply filter_all.
        apply Forall_forall. intros [q l'] Hq. simpl. intros ->.
        apply Hp. apply list_elem_of_fmap. by exists (p, l'). }
    set (h1 := {| blocks := filter _ (blocks h); brk := brk h;
                  limit := limit h; released := released h ++ [p] |}).
    destruct (IH h1 old) as (h' & Hrun & Hb & Hr & Hbrk & Hlim).
    + unfold block_addrs. subst h1. simpl. rewrite Hf, fmap_app.
      apply NoDup_app. split_and!; [done| |done].
      intros q Hq Hq'. apply (Hdisj q); [done|]. by apply list_elem_of_further.
    + subst h1. simpl. exact Hf.
    + exists h'. split_and!; try done.
      rewrite Hr. subst h1. simpl. by rewrite <- app_assoc.
Qed.

(** ** What a call leaves alone, for any argument *)

Lemma stack_for_element_size_frame S a r a1 :
  stack_for_element_size S a = (r, a1) →
  m_all_pointers a1 = m_all_pointers a ∧ m_array_length a1 = m_array_length a.
Proof.
  unfold stack_for_element_size, bind, BLI_assert, get, put, ret, fail.
  destruct (0 <? S); [|by intros [= <- <-]].
  destruct (_ <=? _); simpl; destruct (_ <? _); by intros [= <- <-].
Qed.

Lemma deallocate_array_frame p S a r a1 :
  deallocate_array p S a = (r, a1) →
  m_all_pointers a1 = m_all_pointers a ∧ m_array_length a1 = m_array_length a.
Proof.
  unfold deallocate_array, bind.
  destruct (stack_for_element_size S a) as [[i|e] a2] eqn:Hs;
    apply stack_for_element_size_frame in Hs.
  - unfold stack_push, bind, get, put. by intros [= <- <-].
  - by intros [= <- <-].
Qed.

(** An [allocate_array] either leaves the master list and the heap as they
    are, or obtains one block from the heap and appends its address. *)
Lemma allocate_array_cases S a h r a1 h1 :
  allocate_array S (a, h) = (r, (a1, h1)) →
  m_array_length a1 = m_array_length a ∧
  ((m_all_pointers a1 = m_all_pointers a ∧ h1 = h) ∨
   (∃ p len, r = Ok p ∧ MEM_mallocN_aligned len 64 h = (Ok p, h1) ∧
             m_all_pointers a1 = m_all_pointers a ++ [p])).
Proof.
  unfold allocate_array, bind, on_fst, on_snd. simpl.
  destruct (stack_for_element_size S a) as [[i|e] a2] eqn:Hs;
    apply stack_for_element_size_frame in Hs as [Hp Hl]; simpl.
  2: { intros [= <- <- <-]. auto. }
  unfold stack_size, bind, get, ret. simpl.
  destruct (0 <? _).
  - unfold stack_pop, bind, get, put, ret, fail. simpl.
    destruct (SmallStack_pop _) as [[top rest]|]; simpl;
      intros [= <- <- <-]; simpl; auto.
  - simpl. destruct (MEM_mallocN_aligned _ 64 h) as [[p|e] h2] eqn:Hm; simpl.
    + intros [= <- <- <-]. simpl. split; [done|]. right.
      eexists _, _. split_and!; [done|exact Hm|].
      unfold SmallVector_append. by rewrite Hp.
    + apply malloc_failure in Hm as [-> _]. intros [= <- <- <-]. auto.
Qed.

(** ** The master list mirrors the heap *)

Lemma owns_init N h0 a0 :
  heap_wf h0 → FixedArrayAllocator_ctor N = Ok a0 → owns h0 (a0, h0).
Proof.
  intros Hwf [= <-]. split_and!; [done| |done].
  exists []. by rewrite app_nil_r.
Qed.

Lemma owns_run_call h0 c s r s1 :
  owns h0 s → run_call c s = (r, s1) → owns h0 s1.
Proof.
  destruct s as [a h], s1 as [a1 h1]. intros (Hwf & (new & Hb & Hnew) & Hrel).
  simpl in *. destruct c as [S|p S]; simpl; unfold bind.
  - destruct (allocate_array S (a, h)) as [r' [a2 h2]] eqn:Ha.
    intros Hrun.
    assert (a2 = a1 ∧ h2 = h1) as [-> ->]
      by (destruct r'; unfold ret in Hrun; by simplify_eq).
    clear Hrun. apply allocate_array_cases in Ha as [_ [[Hp ->]|Hfresh]].
    + split_and!; simpl; [done| |done]. exists new. by rewrite Hp.
    + destruct Hfresh as (q & len & _ & Hm & Hp).
      apply malloc_success in Hm as (Hb' & Hr' & _ & _ & _ & _ & _ & Hwf');
        [|done].
      split_and!; simpl; [done| |congruence].
      exists (new ++ [(q, len)]).
      rewrite Hb', Hb, fmap_app, Hnew, Hp, <- app_assoc. done.
  - unfold on_fst. simpl.
    destruct (deallocate_array p S a) as [r' a2] eqn:Hd.
    apply deallocate_array_frame in Hd as [Hp _].
    destruct r'; simpl; intros [= _ <- <-];
      (split_and!; simpl; [done| |done]); exists new; by rewrite Hp.
Qed.

Lemma owns_run_calls h0 cs : ∀ s log s1,
  owns h0 s → run_calls cs s = (log, s1) → owns h0 s1.
Proof.
  induction cs as [|c cs IH]; intros s log s1 Hown; simpl.
  - by intros [= _ <-].
  - destruct (run_call c s) as [r s2] eqn:Hc.
    destruct (run_calls cs s2) as [log' s3] eqn:Hcs.
    intros [= _ <-]. eapply IH; [|exact Hcs]. by eapply owns_run_call.
Qed.

Lemma owns_allocated_since h0 s :
  owns h0 s → allocated_since h0 s.2 = m_all_pointers s.1.
Proof.
  intros (_ & (new & Hb & Hnew) & _). unfold allocated_since.
  by rewrite Hb, drop_app_length.
Qed.

Lemma owns_NoDup h0 s : owns h0 s → NoDup (m_all_pointers s.1).
Proof.
  intros ((_ & _ & Hnodup) & (new & Hb & Hnew) & _).
  unfold block_addrs in Hnodup. rewrite Hb, fmap_app, Hnew in Hnodup.
  by apply NoDup_app in Hnodup as (_ & _ & ?).
Qed.

Lemma owns_dtor h0 a h :
  owns h0 (a, h) →
  ∃ h', FixedArrayAllocator_dtor (a, h) = (Ok tt, (a, h')) ∧
        blocks h' = blocks h0 ∧
        released h' = released h0 ++ m_all_pointers a.
Proof.
  intros ((_ & _ & Hnodup) & (new & Hb & Hnew) & Hrel). simpl in *.
  destruct (free_all_newest new h (blocks h0) Hnodup Hb)
    as (h' & Hrun & Hb' & Hr' & _ & _).
  exists h'. unfold FixedArrayAllocator_dtor, bind, on_fst, on_snd, get. simpl.
  rewrite <- Hnew, Hrun. split_and!; [done|done|]. by rewrite Hr', Hrel.
Qed.

Example checked_out_reached :
  run_calls [Allocate 4] (allocator_100, empty_heap)
  = ([(Allocate 4, Ok (Some 64))], (checked_out_allocator, checked_out_heap)).
Proof. vm_compute. reflexivity. Qed.

(** The destructor passes to [MEM_freeN] entries of the master list only,
    whatever the heap. *)
Lemma free_all_released ptrs : ∀ h r h',
  free_all ptrs h = (r, h') →
  ∃ freed, freed `prefix_of` ptrs ∧ released h' = released h ++ freed.
Proof.
  induction ptrs as [|p ptrs IH]; intros h r h'; simpl.
  - intros [= _ <-]. exists []. by rewrite app_nil_r.
  - unfold bind, MEM_freeN. destruct (bool_decide _).
    + intros Hrest. apply IH in Hrest as (freed & Hpre & ->). simpl.
      exists (p :: freed). split; [by apply prefix_cons|].
      by rewrite <- app_assoc.
    + intros [= _ <-]. exists []. split; [apply prefix_nil|by rewrite app_nil_r].
Qed.

(** A fresh block: its capacity is the [uint] product, its address a
    multiple of 64 that no live block has. *)
Lemma allocate_array_fresh_block a h S p a1 h1 :
  1 <= S < uint_modulus →
  heap_wf h →
  lane a S = [] →
  allocate_array S (a, h) = (Ok p, (a1, h1)) →
  block_size h1 p = Some (uint_mul (m_array_length a) S) ∧
  p mod 64 = 0 ∧ (p ∉ block_addrs h) ∧
  m_all_pointers a1 = m_all_pointers a ++ [p].
Proof.
  intros HS Hwf Hlane. rewrite allocate_array_fresh by done.
  destruct (MEM_mallocN_aligned _ 64 h) as [[q|e] h2] eqn:Hm; [|done].
  intros [= -> <- <-].
  pose proof (malloc_success _ _ _ _ Hwf Hm) as (_ & _ & _ & _ & Hal & _ & Hfr & _).
  split_and!; try done.
  unfold MEM_mallocN_aligned in Hm. destruct (_ <=? _); [|done].
  injection Hm as <- <-. by apply block_size_fresh.
Qed.

(** While the product fits a [uint], the capacity is exactly N*S. *)
Lemma allocate_array_fresh_block_exact a h S p a1 h1 :
  1 <= S < uint_modulus →
  0 <= m_array_length a →
  m_array_length a * S < uint_modulus →
  heap_wf h →
  lane a S = [] →
  allocate_array S (a, h) = (Ok p, (a1, h1)) →
  block_size h1 p = Some (m_array_length a * S) ∧ p mod 64 = 0.
Proof.
  intros HS HN Hfit Hwf Hlane Hrun.
  destruct (allocate_array_fresh_block a h S p a1 h1 HS Hwf Hlane Hrun)
    as (Hsize & Hal & _).
  split; [|done]. rewrite Hsize. f_equal.
  apply to_uint_small. unfold is_uint. nia.
Qed.

(** ** Reuse (C1) *)

(** C1. Reuse correctness. For every allocator state, heap and element size
    [S >= 1]: when [allocate_array(S)] returned [buf], [deallocate_array(buf, S)]
    followed by [allocate_array(S)] returns [buf] again, without touching the
    heap or the master list. The lane for [S] is a LIFO stack:
    [deallocate_array(p, S)] pushes [p] on it, and [allocate_array(S)] pops
    and returns its top whenever it is not empty. *)
Theorem allocate_reuses_last_deallocated a h S :
  1 <= S < uint_modulus →
  (∀ buf a1 h1,
     allocate_array S (a, h) = (Ok buf, (a1, h1)) →
     ∃ a2 a3,
       deallocate_array buf S a1 = (Ok tt, a2) ∧
       allocate_array S (a2, h1) = (Ok buf, (a3, h1)) ∧
       lane a3 S = lane a1 S ∧
       m_all_pointers a3 = m_all_pointers a1) ∧
  (∀ p, ∃ a2,
     deallocate_array p S a = (Ok tt, a2) ∧ lane a2 S = p :: lane a S) ∧
  (∀ top rest,
     lane a S = top :: rest →
     ∃ a2, allocate_array S (a, h) = (Ok top, (a2, h)) ∧ lane a2 S = rest).
Proof.
  intros HS. split_and!.
  - intros buf a1 h1 _.
    exists (set_lane a1 S (buf :: lane a1 S)),
           (set_lane (set_lane a1 S (buf :: lane a1 S)) S (lane a1 S)).
    split_and!.
    + by apply deallocate_array_ok.
    + apply allocate_array_reuse; [done|]. apply lane_set_lane_eq. lia.
    + apply lane_set_lane_eq. lia.
    + done.
  - intros p. exists (set_lane a S (p :: lane a S)). split.
    + by apply deallocate_array_ok.
    + apply lane_set_lane_eq. lia.
  - intros top rest Hlane. exists (set_lane a S rest). split.
    + by apply allocate_array_reuse.
    + apply lane_set_lane_eq. lia.
Qed.

Lemma allocate_reuses_last_deallocated_witness :
  (1 <= 4 < uint_modulus) ∧
  allocate_array 4 (allocator_100, empty_heap)
  = (Ok 64, (checked_out_allocator, checked_out_heap)) ∧
  ∃ a2 a3,
    deallocate_array 64 4 checked_out_allocator = (Ok tt, a2) ∧
    allocate_array 4 (a2, checked_out_heap) = (Ok 64, (a3, checked_out_heap)) ∧
    lane a3 4 = lane checked_out_allocator 4 ∧
    m_all_pointers a3 = m_all_pointers checked_out_allocator.
Proof.
  assert (1 <= 4 < uint_modulus) as HS by (rewrite uint_modulus_eq; lia).
  assert (allocate_array 4 (allocator_100, empty_heap)
          = (Ok 64, (checked_out_allocator, checked_out_heap))) as Hrun
    by (vm_compute; reflexivity).
  split; [exact HS|]. split; [exact Hrun|].
  exact (proj1 (allocate_reuses_last_deallocated allocator_100 empty_heap 4 HS)
           64 checked_out_allocator checked_out_heap Hrun).
Defined.

(** ** Capacity of a fresh block (C2) *)

(** C2. At array length 2^31 and element size 2 the [uint] product
    [m_array_length * element_size] wraps to 0: the fresh block that
    [allocate_array(2)] obtains and returns has capacity 0 bytes, where
    N*S is 4294967296. *)
Theorem allocate_array_capacity_wraps :
  ∃ a0 p a1 h1,
    FixedArrayAllocator_ctor 2147483648 = Ok a0 ∧
    lane a0 2 = [] ∧
    allocate_array 2 (a0, empty_heap) = (Ok p, (a1, h1)) ∧
    m_all_pointers a1 = [p] ∧
    block_size h1 p = Some 0 ∧
    array_size a0 * 2 = 4294967296.
Proof.
  eexists _, _, _, _. split_and!; [reflexivity|reflexivity| | | |reflexivity].
  - vm_compute. reflexivity.
  - reflexivity.
  - vm_compute. reflexivity.
Qed.

(** ** Construction (C5) *)

(** C5, as stated, fails at N = 0: the constructor does not reject a zero
    array length, it builds an instance of [array_size() = 0]. *)
Lemma ctor_zero_length_accepted :
  ¬ (FixedArrayAllocator_ctor 0 = Err InvalidConfiguration) ∧
  ∃ a, FixedArrayAllocator_ctor 0 = Ok a ∧ array_size a = 0.
Proof. split; [discriminate|]. by eexists. Qed.

(** C5, amended. Construction succeeds for every array length N, zero
    included, and binds the instance to exactly N elements per array, with
    an empty master list and no lane. *)
Theorem ctor_binds_array_length N :
  ∃ a, FixedArrayAllocator_ctor N = Ok a ∧
       array_size a = N ∧
       m_all_pointers a = [] ∧
       m_pointer_stacks a = [].
Proof. by eexists. Qed.

(** ** The element-size precondition (C6) *)

(** C6. Both operations assert [element_size > 0]: at element size 0 they
    stop on the assertion and change nothing. For every [S >= 1] the index
    [S - 1] does not wrap, the lane lookup returns that index and it is in
    bounds of the grown lane vector, [deallocate_array] succeeds, and
    [allocate_array] never stops on an assertion. *)
Theorem element_size_precondition a h p S :
  1 <= S < uint_modulus →
  (stack_for_element_size 0 a = (Err AssertionFailure, a) ∧
   allocate_array 0 (a, h) = (Err AssertionFailure, (a, h)) ∧
   deallocate_array p 0 a = (Err AssertionFailure, a)) ∧
  uint_sub S 1 = S - 1 ∧
  (∃ a1, stack_for_element_size S a = (Ok (Z.to_nat (S - 1)), a1) ∧
         (Z.to_nat (S - 1) < length (m_pointer_stacks a1))%nat) ∧
  (deallocate_array p S a).1 = Ok tt ∧
  (allocate_array S (a, h)).1 ≠ Err AssertionFailure.
Proof.
  intros HS. split_and!.
  - by apply stack_for_element_size_zero.
  - by apply allocate_array_zero.
  - by apply deallocate_array_zero.
  - by apply uint_pred.
  - eexists. split; [by apply stack_for_element_size_ok|].
    simpl. rewrite grown_length. lia.
  - by rewrite deallocate_array_ok.
  - destruct (lane a S) as [|top rest] eqn:Hlane.
    + rewrite allocate_array_fresh by done.
      destruct (MEM_mallocN_aligned _ 64 h) as [[q|e] h1] eqn:Hm; [done|].
      apply malloc_failure in Hm as [_ ->]. done.
    + by erewrite allocate_array_reuse.
Qed.

Lemma element_size_precondition_witness :
  1 <= 8 < uint_modulus ∧
  (deallocate_array 64 8 allocator_100).1 = Ok tt.
Proof.
  assert (1 <= 8 < uint_modulus) as HS by (rewrite uint_modulus_eq; lia).
  split; [exact HS|].
  exact (proj1 (proj2 (proj2 (proj2
    (element_size_precondition allocator_100 empty_heap 64 8 HS))))).
Defined.

(** ** Lane indexing (C7) *)



(** ** The frame of a deallocation (C9) *)

(** C9. For every pointer [p], from this instance or not, and every
    [S >= 1], [deallocate_array(p, S)] succeeds, pushes [p] on the lane for
    [S] and changes neither the lane of any other size, nor the master list,
    nor the array length. The next [allocate_array(S)] returns [p] without
    allocating; and when [p] is not in the master list, the destructor does
    not pass it to [MEM_freeN], whatever the heap. *)
Theorem deallocate_array_frame_effect a h p S :
  1 <= S < uint_modulus →
  ∃ a1,
    deallocate_array p S a = (Ok tt, a1) ∧
    lane a1 S = p :: lane a S ∧
    (∀ S', 1 <= S' → S' ≠ S → lane a1 S' = lane a S') ∧
    m_all_pointers a1 = m_all_pointers a ∧
    m_array_length a1 = m_array_length a ∧
    ∃ a2,
      allocate_array S (a1, h) = (Ok p, (a2, h)) ∧
      m_all_pointers a2 = m_all_pointers a ∧
      (p ∉ m_all_pointers a →
       ∀ r s, FixedArrayAllocator_dtor (a2, h) = (r, s) →
              ∃ freed, released s.2 = released h ++ freed ∧ p ∉ freed).
Proof.
  intros HS. exists (set_lane a S (p :: lane a S)). split_and!.
  - by apply deallocate_array_ok.
  - apply lane_set_lane_eq. lia.
  - intros S' HS' Hne. apply lane_set_lane_ne; [lia|done|done].
  - done.
  - done.
  - exists (set_lane (set_lane a S (p :: lane a S)) S (lane a S)). split_and!.
    + apply allocate_array_reuse; [done|]. apply lane_set_lane_eq. lia.
    + done.
    + intros Hp r s.
      unfold FixedArrayAllocator_dtor, bind, on_fst, on_snd, get. simpl.
      destruct (free_all (m_all_pointers a) h) as [r' h'] eqn:Hfree.
      intros [= _ <-]. simpl.
      apply free_all_released in Hfree as (freed & Hpre & Hrel).
      exists freed. split; [done|].
      intros Hin. apply Hp. destruct Hpre as [k ->].
      apply elem_of_app. by left.
Qed.

Lemma deallocate_array_frame_effect_witness :
  1 <= 4 < uint_modulus ∧
  ∃ a1,
    deallocate_array 12345 4 allocator_100 = (Ok tt, a1) ∧
    lane a1 4 = 12345 :: lane allocator_100 4.
Proof.
  assert (1 <= 4 < uint_modulus) as HS by (rewrite uint_modulus_eq; lia).
  split; [exact HS|].
  destruct (deallocate_array_frame_effect allocator_100 empty_heap 12345 4 HS)
    as (a1 & Hrun & Hlane & _).
  exists a1. split; [exact Hrun|exact Hlane].
Defined.

(** ** Teardown (C4) *)

(** C4. Teardown completeness. From a freshly constructed allocator, after
    any sequence of [allocate_array] and [deallocate_array] calls (of any
    arguments, failed calls included): the master list is exactly the list
    of the blocks obtained from the heap since construction, in order and
    without repetition; an [allocate_array] served from a lane leaves the
    master list and the heap as they are; and the destructor succeeds,
    passes exactly the entries of the master list to [MEM_freeN], each once,
    and leaves the heap with the blocks it had before construction,
    wherever the buffers are (checked out or in a lane). *)
Theorem teardown_releases_master_list N h0 a0 cs log a h :
  heap_wf h0 →
  FixedArrayAllocator_ctor N = Ok a0 →
  run_calls cs (a0, h0) = (log, (a, h)) →
  m_all_pointers a = allocated_since h0 h ∧
  NoDup (m_all_pointers a) ∧
  (∀ S top rest,
     1 <= S < uint_modulus → lane a S = top :: rest →
     ∃ a1, allocate_array S (a, h) = (Ok top, (a1, h)) ∧
           m_all_pointers a1 = m_all_pointers a) ∧
  ∃ h', FixedArrayAllocator_dtor (a, h) = (Ok tt, (a, h')) ∧
        released h' = released h0 ++ m_all_pointers a ∧
        blocks h' = blocks h0.
Proof.
  intros Hwf Hctor Hrun.
  assert (owns h0 (a, h)) as Hown.
  { eapply owns_run_calls; [|exact Hrun]. by eapply owns_init. }
  split_and!.
  - symmetry. exact (owns_allocated_since _ _ Hown).
  - exact (owns_NoDup _ _ Hown).
  - intros S top rest HS Hlane. eexists.
    split; [by apply allocate_array_reuse|done].
  - destruct (owns_dtor _ _ _ Hown) as (h' & Hd & Hb & Hr). by exists h'.
Qed.

Lemma teardown_releases_master_list_witness :
  heap_wf empty_heap ∧
  FixedArrayAllocator_ctor 100 = Ok allocator_100 ∧
  run_calls [Allocate 4; Deallocate 64 4; Allocate 4; Allocate 8]
    (allocator_100, empty_heap)
  = ([(Allocate 4, Ok (Some 64)); (Deallocate 64 4, Ok None);
      (Allocate 4, Ok (Some 64)); (Allocate 8, Ok (Some 512))],
     (two_blocks_allocator, two_blocks_heap)) ∧
  ∃ h', FixedArrayAllocator_dtor (two_blocks_allocator, two_blocks_heap)
        = (Ok tt, (two_blocks_allocator, h')) ∧
        released h' = [64; 512] ∧
        blocks h' = [].
Proof.
  assert (heap_wf empty_heap) as Hwf.
  { unfold heap_wf, empty_heap, block_addrs. simpl.
    split_and!; [lia|constructor|constructor]. }
  assert (FixedArrayAllocator_ctor 100 = Ok allocator_100) as Hctor
    by reflexivity.
  assert (run_calls [Allocate 4; Deallocate 64 4; Allocate 4; Allocate 8]
            (allocator_100, empty_heap)
          = ([(Allocate 4, Ok (Some 64)); (Deallocate 64 4, Ok None);
              (Allocate 4, Ok (Some 64)); (Allocate 8, Ok (Some 512))],
             (two_blocks_allocator, two_blocks_heap))) as Hrun
    by (vm_compute; reflexivity).
  repeat (split; [assumption|]).
  exact (proj2 (proj2 (proj2
    (teardown_releases_master_list 100 empty_heap allocator_100 _ _ _ _
       Hwf Hctor Hrun)))).
Defined.

(** ** Lane isolation (C3) *)

Lemma isolated_run_call buf S2 c a h r a1 h1 :
  1 <= S2 < uint_modulus →
  heap_wf h → buf ∈ block_addrs h → buf ∉ lane a S2 →
  call_typed c → c ≠ Deallocate buf S2 →
  run_call c (a, h) = (r, (a1, h1)) →
  heap_wf h1 ∧ buf ∈ block_addrs h1 ∧ (buf ∉ lane a1 S2) ∧
  (c, r) ≠ (Allocate S2, Ok (Some buf)).
Proof.
  intros HS2 Hwf Hlive Hout Hty Hc.
  destruct c as [S|q S]; simpl in *; unfold bind, is_uint in *.
  - destruct (decide (S = 0)) as [->|HS0].
    { rewrite allocate_array_zero by lia. by intros [= <- <- <-]. }
    assert (1 <= S < uint_modulus) as HS by lia.
    destruct (lane a S) as [|top rest] eqn:Hlane.
    + rewrite allocate_array_fresh by done.
      destruct (MEM_mallocN_aligned _ 64 h) as [[p|e] h2] eqn:Hm.
      * pose proof (malloc_success _ _ _ _ Hwf Hm)
          as (Hb & _ & _ & _ & _ & _ & Hfresh & Hwf').
        intros [= <- <- <-]. split_and!.
        -- done.
        -- unfold block_addrs in *. rewrite Hb, fmap_app.
           apply elem_of_app. by left.
        -- change (buf ∉ lane (with_lane a S) S2). by rewrite lane_with_lane.
        -- intros [= -> ->]. done.
      * apply malloc_failure in Hm as [-> _].
        intros [= <- <- <-]. by rewrite lane_with_lane.
    + rewrite (allocate_array_reuse _ _ _ top rest) by done.
      intros [= <- <- <-]. split_and!; [done|done| |].
      * destruct (decide (S = S2)) as [->|Hne].
        -- rewrite lane_set_lane_eq by lia. rewrite Hlane in Hout.
           intros Hin. apply Hout. by apply list_elem_of_further.
        -- by rewrite lane_set_lane_ne by lia.
      * intros [= -> ->]. apply Hout. rewrite Hlane. apply list_elem_of_here.
  - unfold on_fst. simpl. destruct (decide (S = 0)) as [->|HS0].
    { rewrite deallocate_array_zero by lia. by intros [= <- <- <-]. }
    rewrite deallocate_array_ok by lia. intros [= <- <- <-].
    split_and!; [done|done| |done].
    destruct (decide (S = S2)) as [->|Hne].
    + rewrite lane_set_lane_eq by lia. intros Hin.
      apply elem_of_cons in Hin as [->|Hin]; [by apply Hc|by apply Hout].
    + by rewrite lane_set_lane_ne by lia.
Qed.

Lemma isolated_run_calls buf S2 cs : ∀ a h log s1,
  1 <= S2 < uint_modulus →
  heap_wf h → buf ∈ block_addrs h → buf ∉ lane a S2 →
  Forall call_typed cs → Deallocate buf S2 ∉ cs →
  run_calls cs (a, h) = (log, s1) →
  (Allocate S2, Ok (Some buf)) ∉ log.
Proof.
  induction cs as [|c cs IH]; intros a h log s1 HS2 Hwf Hlive Hout Hty Hnot;
    simpl.
  - intros [= <- _]. apply not_elem_of_nil.
  - destruct (run_call c (a, h)) as [r [a1 h1]] eqn:Hc.
    destruct (run_calls cs (a1, h1)) as [log' s2] eqn:Hcs.
    intros [= <- _]. apply Forall_cons in Hty as [Hty1 Hty].
    apply not_elem_of_cons in Hnot as [Hne Hnot].
    destruct (isolated_run_call buf S2 c a h r a1 h1)
      as (Hwf1 & Hlive1 & Hout1 & Hr); try done.
    apply not_elem_of_cons. split; [done|].
    by eapply IH.
Qed.

(** C3, as stated, fails: [deallocate_array] validates nothing, so a
    buffer passed to [deallocate_array(buf, 4)] is returned by a later
    [allocate_array(8)] when the caller also hands it back under size 8,
    after or before, or when it is not a live block and its address is that
    of the next fresh block. From a new allocator of 100 elements:
    [allocate_array(4)] returns 64; after [deallocate_array(64, 4)] and
    [deallocate_array(64, 8)], [allocate_array(8)] returns 64. *)
Lemma lane_isolation_fails_without_matched_use :
  (run_calls [Allocate 4; Deallocate 64 4; Deallocate 64 8; Allocate 8]
     (allocator_100, empty_heap)).1
  = [(Allocate 4, Ok (Some 64)); (Deallocate 64 4, Ok None);
     (Deallocate 64 8, Ok None); (Allocate 8, Ok (Some 64))] ∧
  (run_calls [Deallocate 64 8; Deallocate 64 4; Allocate 8]
     (checked_out_allocator, checked_out_heap)).1
  = [(Deallocate 64 8, Ok None); (Deallocate 64 4, Ok None);
     (Allocate 8, Ok (Some 64))] ∧
  ((64 ∉ block_addrs empty_heap) ∧
   (run_calls [Deallocate 64 4; Allocate 8] (allocator_100, empty_heap)).1
   = [(Deallocate 64 4, Ok None); (Allocate 8, Ok (Some 64))]).
Proof.
  split_and!.
  - vm_compute. reflexivity.
  - vm_compute. reflexivity.
  - apply not_elem_of_nil.
  - vm_compute. reflexivity.
Qed.

(** C3, amended. Lane isolation. Let [buf] be a live block that is not
    resident in the lane for [S2], and [S1 ≠ S2], both at least 1.
    [deallocate_array(buf, S1)] pushes [buf] on the lane for [S1] and leaves
    the lane for [S2] as it is; and in any sequence of later calls that
    never hands [buf] back under [S2], no [allocate_array(S2)] returns
    [buf]. *)
Theorem lane_isolation a h buf S1 S2 cs log s1 :
  1 <= S1 < uint_modulus → 1 <= S2 < uint_modulus → S1 ≠ S2 →
  heap_wf h → buf ∈ block_addrs h → buf ∉ lane a S2 →
  Forall call_typed cs → Deallocate buf S2 ∉ cs →
  run_calls (Deallocate buf S1 :: cs) (a, h) = (log, s1) →
  (∃ a1, deallocate_array buf S1 a = (Ok tt, a1) ∧
         lane a1 S1 = buf :: lane a S1 ∧
         lane a1 S2 = lane a S2) ∧
  (Allocate S2, Ok (Some buf)) ∉ log.
Proof.
  intros HS1 HS2 Hne Hwf Hlive Hout Hty Hnot Hrun. split.
  - eexists. split_and!; [by apply deallocate_array_ok| |].
    + apply lane_set_lane_eq. lia.
    + apply lane_set_lane_ne; [lia|lia|done].
  - eapply (isolated_run_calls buf S2 (Deallocate buf S1 :: cs));
      try done.
    + apply Forall_cons. split; [|done]. simpl. unfold is_uint. lia.
    + apply not_elem_of_cons. split; [|done]. intros [= ?]. done.
Qed.

Lemma lane_isolation_witness :
  (1 <= 4 < uint_modulus) ∧ (1 <= 8 < uint_modulus) ∧ 4 ≠ 8 ∧
  heap_wf checked_out_heap ∧
  64 ∈ block_addrs checked_out_heap ∧
  (64 ∉ lane checked_out_allocator 8) ∧
  Forall call_typed [Allocate 8; Allocate 4; Deallocate 64 4; Allocate 8] ∧
  (Deallocate 64 8 ∉ [Allocate 8; Allocate 4; Deallocate 64 4; Allocate 8]) ∧
  run_calls
    (Deallocate 64 4 :: [Allocate 8; Allocate 4; Deallocate 64 4; Allocate 8])
    (checked_out_allocator, checked_out_heap)
  = (isolation_log, isolation_state) ∧
  (Allocate 8, Ok (Some 64)) ∉ isolation_log.
Proof.
  assert (1 <= 4 < uint_modulus) as H4 by (rewrite uint_modulus_eq; lia).
  assert (1 <= 8 < uint_modulus) as H8 by (rewrite uint_modulus_eq; lia).
  assert (4 ≠ 8) as Hne by lia.
  assert (heap_wf checked_out_heap) as Hwf.
  { unfold heap_wf, checked_out_heap, block_addrs. simpl.
    split_and!; [lia|repeat constructor; simpl; lia|].
    apply NoDup_singleton. }
  assert (64 ∈ block_addrs checked_out_heap) as Hlive
    by apply list_elem_of_here.
  assert (64 ∉ lane checked_out_allocator 8) as Hout
    by apply not_elem_of_nil.
  assert (Forall call_typed
            [Allocate 8; Allocate 4; Deallocate 64 4; Allocate 8]) as Hty
    by (repeat (apply Forall_cons; split;
                  [simpl; unfold is_uint; rewrite uint_modulus_eq; lia|]);
        constructor).
  assert (Deallocate 64 8
            ∉ [Allocate 8; Allocate 4; Deallocate 64 4; Allocate 8]) as Hnot
    by (apply (bool_decide_unpack _); vm_compute; exact I).
  assert (run_calls
            (Deallocate 64 4
             :: [Allocate 8; Allocate 4; Deallocate 64 4; Allocate 8])
            (checked_out_allocator, checked_out_heap)
          = (isolation_log, isolation_state)) as Hrun
    by (vm_compute; reflexivity).
  repeat (split; [assumption|]).
  exact (proj2 (lane_isolation checked_out_allocator checked_out_heap 64 4 8
                  [Allocate 8; Allocate 4; Deallocate 64 4; Allocate 8]
                  isolation_log isolation_state
                  H4 H8 Hne Hwf Hlive Hout Hty Hnot Hrun)).
Defined.

(** ** Scoped handles (C8, C10) *)

Lemma ScopedAllocation_eta o :
  {| m_allocator := m_allocator o;
     m_ptr := m_ptr o;
     m_element_size := m_element_size o |} = o.
Proof. by destruct o. Qed.

Lemma move_ctor_ok w this other o :
  scoped w !! other = Some o →
  ScopedAllocation_move_ctor this other w
  = (Ok tt,
     {| allocators := allocators w;
        scoped := <[other := moved_from o]> (<[this := o]> (scoped w)) |}).
Proof.
  intros Ho. unfold ScopedAllocation_move_ctor, bind, scoped_load, scoped_store.
  rewrite Ho. simpl. rewrite ScopedAllocation_eta.
  destruct (decide (this = other)) as [->|Hne].
  - by rewrite lookup_insert_eq.
  - by rewrite lookup_insert_ne, Ho.
Qed.

Lemma dtor_empty w this o :
  scoped w !! this = Some o → m_ptr o = nullptr →
  ScopedAllocation_dtor this w = (Ok tt, w).
Proof.
  intros Ho Hnull. unfold ScopedAllocation_dtor, bind, scoped_load.
  rewrite Ho, Hnull. by rewrite bool_decide_eq_false_2 by auto.
Qed.

Lemma dtor_holding w this o a :
  scoped w !! this = Some o → m_ptr o ≠ nullptr →
  allocators w !! m_allocator o = Some a →
  1 <= m_element_size o < uint_modulus →
  ScopedAllocation_dtor this w
  = (Ok tt,
     {| allocators :=
          <[m_allocator o :=
              set_lane a (m_element_size o)
                (m_ptr o :: lane a (m_element_size o))]> (allocators w);
        scoped := scoped w |}).
Proof.
  intros Ho Hptr Ha Hes. unfold ScopedAllocation_dtor, bind, scoped_load.
  rewrite Ho, bool_decide_eq_true_2 by done.
  unfold allocator_call. rewrite Ha.
  by rewrite deallocate_array_ok.
Qed.

(** C8. Move transfer. Move-constructing [dst] from a handle [src] that
    holds a buffer leaves [dst] with the allocator, buffer and element size
    that [src] had, and [src] with no buffer; the allocators are untouched.
    Destroying the moved-from [src] then changes nothing, and destroying
    [dst] pushes the buffer, once, on the lane for its element size in its
    allocator; after which destroying [src] still changes nothing. *)
Theorem move_ctor_transfers_obligation w dst src o a :
  dst ≠ src →
  scoped w !! src = Some o →
  m_ptr o ≠ nullptr →
  allocators w !! m_allocator o = Some a →
  1 <= m_element_size o < uint_modulus →
  ∃ w1,
    ScopedAllocation_move_ctor dst src w = (Ok tt, w1) ∧
    scoped w1 !! dst = Some o ∧
    scoped w1 !! src = Some (moved_from o) ∧
    allocators w1 = allocators w ∧
    ScopedAllocation_dtor src w1 = (Ok tt, w1) ∧
    ∃ w2 a1,
      ScopedAllocation_dtor dst w1 = (Ok tt, w2) ∧
      deallocate_array (m_ptr o) (m_element_size o) a = (Ok tt, a1) ∧
      lane a1 (m_element_size o) = m_ptr o :: lane a (m_element_size o) ∧
      allocators w2 = <[m_allocator o := a1]> (allocators w) ∧
      scoped w2 = scoped w1 ∧
      ScopedAllocation_dtor src w2 = (Ok tt, w2).
Proof.
  intros Hne Ho Hptr Ha Hes. eexists. split_and!.
  - by apply move_ctor_ok.
  - simpl. by rewrite lookup_insert_ne, lookup_insert_eq.
  - simpl. by rewrite lookup_insert_eq.
  - done.
  - eapply dtor_empty; simpl; [by rewrite lookup_insert_eq|done].
  - eexists _, _. split_and!.
    + eapply dtor_holding; simpl; [|done|done|done].
      by rewrite lookup_insert_ne, lookup_insert_eq.
    + by apply deallocate_array_ok.
    + apply lane_set_lane_eq. lia.
    + done.
    + done.
    + eapply dtor_empty; simpl; [by rewrite lookup_insert_eq|done].
Qed.

(** C10. Move assignment onto a handle that holds a buffer. Assigning
    [other] to a distinct handle [this] that holds a buffer first pushes
    the buffer of [this], once, on the lane for the element size [this]
    recorded, in the allocator of [this]; then [this] has the allocator,
    buffer and element size that [other] had and [other] holds no buffer,
    so that destroying [other] changes nothing and destroying [this]
    returns the adopted buffer, once, to its lane. *)
Theorem move_assign_returns_then_adopts w this other t o a :
  this ≠ other →
  scoped w !! this = Some t →
  scoped w !! other = Some o →
  m_ptr t ≠ nullptr →
  allocators w !! m_allocator t = Some a →
  1 <= m_element_size t < uint_modulus →
  ∃ w1 a1,
    ScopedAllocation_move_assign this other w = (Ok tt, w1) ∧
    deallocate_array (m_ptr t) (m_element_size t) a = (Ok tt, a1) ∧
    lane a1 (m_element_size t) = m_ptr t :: lane a (m_element_size t) ∧
    allocators w1 = <[m_allocator t := a1]> (allocators w) ∧
    scoped w1 !! this = Some o ∧
    scoped w1 !! other = Some (moved_from o) ∧
    ScopedAllocation_dtor other w1 = (Ok tt, w1) ∧
    (∀ b,
       m_ptr o ≠ nullptr →
       1 <= m_element_size o < uint_modulus →
       allocators w1 !! m_allocator o = Some b →
       ∃ w2,
         ScopedAllocation_dtor this w1 = (Ok tt, w2) ∧
         allocators w2
         = <[m_allocator o :=
               set_lane b (m_element_size o)
                 (m_ptr o :: lane b (m_element_size o))]> (allocators w1) ∧
         scoped w2 = scoped w1).
Proof.
  intros Hne Ht Ho Hptr Ha Hes.
  eexists _, (set_lane a (m_element_size t)
                (m_ptr t :: lane a (m_element_size t))).
  split_and!.
  - unfold ScopedAllocation_move_assign, bind.
    rewrite (dtor_holding w this t a) by done.
    by rewrite (move_ctor_ok _ this other o).
  - by apply deallocate_array_ok.
  - apply lane_set_lane_eq. lia.
  - done.
  - simpl. by rewrite lookup_insert_ne, lookup_insert_eq.
  - simpl. by rewrite lookup_insert_eq.
  - eapply dtor_empty; simpl; [by rewrite lookup_insert_eq|done].
  - intros b Hptr' Hes' Hb. eexists. split_and!.
    + eapply dtor_holding; simpl; [|done|exact Hb|done].
      by rewrite lookup_insert_ne, lookup_insert_eq.
    + done.
    + done.
Qed.

(** Assigning a handle to itself: the buffer is returned by the destructor
    and the handle is left without one. *)
Lemma move_assign_self w this t a :
  scoped w !! this = Some t →
  m_ptr t ≠ nullptr →
  allocators w !! m_allocator t = Some a →
  1 <= m_element_size t < uint_modulus →
  ScopedAllocation_move_assign this this w
  = (Ok tt,
     {| allocators :=
          <[m_allocator t :=
              set_lane a (m_element_size t)
                (m_ptr t :: lane a (m_element_size t))]> (allocators w);
        scoped := <[this := moved_from t]> (scoped w) |}).
Proof.
  intros Ht Hptr Ha Hes. unfold ScopedAllocation_move_assign, bind.
  rewrite (dtor_holding w this t a) by done.
  rewrite (move_ctor_ok _ this this t) by done. simpl.
  by rewrite insert_insert_eq.
Qed.

Lemma move_ctor_transfers_obligation_witness :
  2%nat ≠ 1%nat ∧
  scoped one_handle !! 1%nat = Some handle_64 ∧
  m_ptr handle_64 ≠ nullptr ∧
  allocators one_handle !! m_allocator handle_64 = Some checked_out_allocator ∧
  (1 <= m_element_size handle_64 < uint_modulus) ∧
  ∃ w1,
    ScopedAllocation_move_ctor 2 1 one_handle = (Ok tt, w1) ∧
    scoped w1 !! 2%nat = Some handle_64 ∧
    scoped w1 !! 1%nat = Some (moved_from handle_64) ∧
    ScopedAllocation_dtor 1 w1 = (Ok tt, w1).
Proof.
  assert (2%nat ≠ 1%nat) as Hne by lia.
  assert (scoped one_handle !! 1%nat = Some handle_64) as Ho
    by (vm_compute; reflexivity).
  assert (m_ptr handle_64 ≠ nullptr) as Hptr by (simpl; unfold nullptr; lia).
  assert (allocators one_handle !! m_allocator handle_64
          = Some checked_out_allocator) as Ha by (vm_compute; reflexivity).
  assert (1 <= m_element_size handle_64 < uint_modulus) as Hes
    by (simpl; rewrite uint_modulus_eq; lia).
  repeat (split; [assumption|]).
  destruct (move_ctor_transfers_obligation one_handle 2 1 handle_64
              checked_out_allocator Hne Ho Hptr Ha Hes)
    as (w1 & Hrun & Hdst & Hsrc & _ & Hnoop & _).
  exists w1. repeat (split; [assumption|]). assumption.
Defined.

Lemma move_assign_returns_then_adopts_witness :
  2%nat ≠ 1%nat ∧
  scoped two_handles !! 2%nat = Some handle_512 ∧
  scoped two_handles !! 1%nat = Some handle_64 ∧
  m_ptr handle_512 ≠ nullptr ∧
  allocators two_handles !! m_allocator handle_512
  = Some checked_out_allocator ∧
  (1 <= m_element_size handle_512 < uint_modulus) ∧
  ∃ w1 a1,
    ScopedAllocation_move_assign 2 1 two_handles = (Ok tt, w1) ∧
    lane a1 8 = [512] ∧
    allocators w1 = <[0%nat := a1]> (allocators two_handles) ∧
    scoped w1 !! 2%nat = Some handle_64 ∧
    scoped w1 !! 1%nat = Some (moved_from handle_64).
Proof.
  assert (2%nat ≠ 1%nat) as Hne by lia.
  assert (scoped two_handles !! 2%nat = Some handle_512) as Ht
    by (vm_compute; reflexivity).
  assert (scoped two_handles !! 1%nat = Some handle_64) as Ho
    by (vm_compute; reflexivity).
  assert (m_ptr handle_512 ≠ nullptr) as Hptr by (simpl; unfold nullptr; lia).
  assert (allocators two_handles !! m_allocator handle_512
          = Some checked_out_allocator) as Ha by (vm_compute; reflexivity).
  assert (1 <= m_element_size handle_512 < uint_modulus) as Hes
    by (simpl; rewrite uint_modulus_eq; lia).
  repeat (split; [assumption|]).
  destruct (move_assign_returns_then_adopts two_handles 2 1 handle_512
              handle_64 checked_out_allocator Hne Ht Ho Hptr Ha Hes)
    as (w1 & a1 & Hrun & _ & Hlane & Hallocs & Hthis & Hother & _).
  exists w1, a1. repeat (split; [assumption|]). assumption.
Defined.

(** * Further properties *)

(** ** Every call is one of five steps *)

Lemma run_call_step c s r s1 :
  call_typed c → run_call c s = (r, s1) → call_step c s r s1.
Proof.
  destruct s as [a h]. intros Hty.
  destruct c as [S|p S]; simpl in *; unfold bind, is_uint in *.
  - destruct (decide (S = 0)) as [->|HS0].
    { rewrite allocate_array_zero by lia. intros [= <- <-].
      by apply step_assert. }
    assert (1 <= S < uint_modulus) as HS by lia.
    destruct (lane a S) as [|top rest] eqn:Hlane.
    + rewrite allocate_array_fresh by done.
      destruct (MEM_mallocN_aligned _ 64 h) as [[p|e] h2] eqn:Hm.
      * intros [= <- <-]. by apply step_fresh.
      * pose proof (malloc_failure _ _ _ _ Hm) as [-> ->].
        intros [= <- <-]. by apply step_out_of_memory.
    + rewrite (allocate_array_reuse _ _ _ top rest) by done.
      intros [= <- <-]. by apply step_reuse.
  - unfold on_fst. simpl. destruct (decide (S = 0)) as [->|HS0].
    { rewrite deallocate_array_zero by lia. intros [= <- <-].
      by apply step_assert. }
    rewrite deallocate_array_ok by lia. intros [= <- <-].
    apply step_return. lia.
Qed.

Lemma run_calls_cons c cs s :
  run_calls (c :: cs) s
  = ((c, (run_call c s).1) :: (run_calls cs (run_call c s).2).1,
     (run_calls cs (run_call c s).2).2).
Proof.
  simpl. destruct (run_call c s) as [r s1]. simpl.
  by destruct (run_calls cs s1) as [log s2].
Qed.

(** ** What no call changes *)

Lemma run_call_array_size c s :
  array_size (run_call c s).2.1 = array_size s.1.
Proof.
  destruct s as [a h]. unfold array_size.
  destruct c as [S|p S]; simpl; unfold bind.
  - destruct (allocate_array S (a, h)) as [r [a1 h1]] eqn:Ha.
    apply allocate_array_cases in Ha as [Hlen _]. by destruct r.
  - unfold on_fst. simpl.
    destruct (deallocate_array p S a) as [r a1] eqn:Hd.
    apply deallocate_array_frame in Hd as [_ Hlen]. by destruct r.
Qed.

Lemma run_calls_array_size cs : ∀ s,
  array_size (run_calls cs s).2.1 = array_size s.1.
Proof.
  induction cs as [|c cs IH]; intros s; [done|].
  rewrite run_calls_cons. simpl. rewrite IH. apply run_call_array_size.
Qed.

(** X1. The array length is fixed at construction: whatever the calls and
    their arguments, failed ones included, [array_size()] reports after
    them the length the allocator was constructed with. *)
Theorem array_size_is_constant N a0 h0 cs :
  FixedArrayAllocator_ctor N = Ok a0 →
  array_size (run_calls cs (a0, h0)).2.1 = N.
Proof.
  intros [= <-]. by rewrite run_calls_array_size.
Qed.

Lemma array_size_is_constant_witness :
  FixedArrayAllocator_ctor 100 = Ok allocator_100 ∧
  array_size (run_calls paired_calls (allocator_100, empty_heap)).2.1 = 100.
Proof.
  split; [reflexivity|].
  exact (array_size_is_constant 100 allocator_100 empty_heap paired_calls
           eq_refl).
Defined.

(** ** The number of lanes *)

Lemma set_lane_length a S l :
  length (m_pointer_stacks (set_lane a S l))
  = (length (m_pointer_stacks a) `max` Z.to_nat S)%nat.
Proof. simpl. by rewrite length_insert, grown_length. Qed.

Lemma with_lane_length a S :
  length (m_pointer_stacks (with_lane a S))
  = (length (m_pointer_stacks a) `max` Z.to_nat S)%nat.
Proof. simpl. by rewrite grown_length. Qed.

Lemma call_step_lane_count c s r s1 :
  call_step c s r s1 →
  length (m_pointer_stacks s1.1)
  = (length (m_pointer_stacks s.1) `max` Z.to_nat (call_size c))%nat.
Proof.
  destruct 1 as [c a h Hz|S a h top rest|S a h p h'|S a h|p S a h]; simpl.
  - rewrite Hz. simpl. lia.
  - by rewrite length_insert, grown_length.
  - by rewrite grown_length.
  - by rewrite grown_length.
  - by rewrite length_insert, grown_length.
Qed.

(** X2. Lanes are created and never removed: after any sequence of calls with
    [uint] element sizes, there are as many lanes as the largest element
    size requested so far, or as many as before when that is more. *)
Theorem lane_count_is_largest_size cs s :
  Forall call_typed cs →
  length (m_pointer_stacks (run_calls cs s).2.1)
  = (length (m_pointer_stacks s.1) `max` Z.to_nat (largest_size cs))%nat.
Proof.
  revert s. induction cs as [|c cs IH]; intros s Hty.
  - simpl. lia.
  - apply Forall_cons in Hty as [Hc Hty].
    rewrite run_calls_cons. simpl. rewrite (IH _ Hty).
    rewrite (call_step_lane_count c s (run_call c s).1 (run_call c s).2).
    + lia.
    + apply run_call_step; [done|]. by destruct (run_call c s).
Qed.

Lemma lane_count_is_largest_size_witness :
  Forall call_typed [Allocate 4; Deallocate 64 4; Allocate 8; Allocate 2] ∧
  length (m_pointer_stacks
            (run_calls [Allocate 4; Deallocate 64 4; Allocate 8; Allocate 2]
               (allocator_100, empty_heap)).2.1)
  = 8%nat.
Proof.
  assert (Forall call_typed
            [Allocate 4; Deallocate 64 4; Allocate 8; Allocate 2]) as Hty
    by (repeat (apply Forall_cons; split;
                  [simpl; unfold is_uint; rewrite uint_modulus_eq; lia|]);
        constructor).
  split; [exact Hty|].
  exact (lane_count_is_largest_size
           [Allocate 4; Deallocate 64 4; Allocate 8; Allocate 2]
           (allocator_100, empty_heap) Hty).
Defined.

(** ** Buffers in the lanes and buffers checked out *)

Lemma take_back_Permutation x out out' :
  take_back x out = Some out' → out ≡ₚ x :: out'.
Proof.
  revert out'. induction out as [|y out IH]; intros out'; simpl; [done|].
  destruct (decide (x = y)) as [->|Hne].
  - by intros [= ->].
  - destruct (take_back x out) as [k|]; simpl; [|done].
    intros [= <-]. rewrite (IH k eq_refl). apply Permutation_swap.
Qed.

Lemma concat_grown stacks S : concat (grown stacks S) = concat stacks.
Proof.
  unfold grown. rewrite concat_app.
  assert (concat (replicate (Z.to_nat S - length stacks) ([] : list ptr)) = [])
    as ->; [|apply app_nil_r].
  induction (Z.to_nat S - length stacks)%nat; [done|]. simpl. done.
Qed.

Lemma grown_lookup_lane a S :
  1 <= S → grown (m_pointer_stacks a) S !! Z.to_nat (S - 1) = Some (lane a S).
Proof.
  intros HS. unfold lane.
  destruct (lookup_lt_is_Some_2 (grown (m_pointer_stacks a) S)
              (Z.to_nat (S - 1))) as [l Hl].
  { rewrite grown_length. lia. }
  rewrite Hl. f_equal. by rewrite <- (grown_lookup_default _ S), Hl.
Qed.

Lemma grown_lookup_Some stacks S (i : nat) l :
  grown stacks S !! i = Some l → stacks !! i = Some l ∨ l = [].
Proof.
  unfold grown. intros Hl. apply lookup_app_Some in Hl as [Hl|[_ Hl]].
  - by left.
  - right. by apply lookup_replicate in Hl as [-> _].
Qed.

(** The buffers of all lanes, before and after the lane for [S] is
    replaced. *)
Lemma concat_set_lane a S l :
  1 <= S →
  concat (m_pointer_stacks (set_lane a S l)) ++ lane a S
  ≡ₚ concat (m_pointer_stacks a) ++ l.
Proof.
  intros HS. simpl.
  pose proof (grown_lookup_lane a S HS) as Hl.
  rewrite <- (concat_grown (m_pointer_stacks a) S).
  rewrite <- (take_drop_middle _ _ _ Hl) at 2.
  rewrite insert_take_drop by (by eapply lookup_lt_Some).
  rewrite !concat_app. simpl. solve_Permutation.
Qed.

Lemma set_lane_lookup a S l (j : nat) k :
  1 <= S →
  m_pointer_stacks (set_lane a S l) !! j = Some k →
  (j = Z.to_nat (S - 1) ∧ k = l) ∨
  (j ≠ Z.to_nat (S - 1) ∧ (m_pointer_stacks a !! j = Some k ∨ k = [])).
Proof.
  intros HS. simpl. destruct (decide (j = Z.to_nat (S - 1))) as [->|Hne].
  - rewrite list_lookup_insert_eq by (rewrite grown_length; lia).
    intros [= <-]. by left.
  - rewrite list_lookup_insert_ne by done. intros Hk. right.
    split; [done|]. by eapply grown_lookup_Some.
Qed.

Lemma lane_elem_lookup a S p :
  p ∈ lane a S → ∃ l, m_pointer_stacks a !! Z.to_nat (S - 1) = Some l ∧ p ∈ l.
Proof.
  unfold lane. destruct (m_pointer_stacks a !! Z.to_nat (S - 1)) as [l|].
  - intros Hp. by exists l.
  - simpl. intros Hp. by apply elem_of_nil in Hp.
Qed.

Lemma block_size_old h h' new q sz :
  blocks h' = blocks h ++ new →
  block_size h q = Some sz → block_size h' q = Some sz.
Proof.
  unfold block_size. intros ->.
  destruct (list_find _ (blocks h)) as [[i b]|] eqn:Hf; [|done].
  by rewrite (list_find_app_l _ _ _ _ _ Hf).
Qed.

Lemma block_size_new h h' p len :
  p ∉ block_addrs h →
  blocks h' = blocks h ++ [(p, len)] →
  block_size h' p = Some len.
Proof.
  intros Hfresh Hb.
  rewrite <- (block_size_fresh h p len Hfresh).
  unfold block_size. simpl. by rewrite Hb.
Qed.

Lemma buffer_for_old N h h' new S q :
  blocks h' = blocks h ++ new → buffer_for N h S q → buffer_for N h' S q.
Proof.
  intros Hb (Hsz & Hal & Hnn). split_and!; [|done|done].
  by eapply block_size_old.
Qed.

Lemma paired_step c s r s1 out out' :
  heap_wf s.2 → paired s out →
  call_step c s r s1 → track out (c, r) = Some out' →
  heap_wf s1.2 ∧ paired s1 out'.
Proof.
  intros Hwf (Hperm & Hlanes & Hout) Hstep.
  destruct Hstep as [c a h Hz|S a h top rest HS Hlane|S a h p h' HS Hlane Hm
                    |S a h HS Hlane Hm|p S a h HS]; simpl in *.
  - intros Htrack.
    assert (out' = out) as -> by (destruct c; by injection Htrack).
    done.
  - intros [= <-]. split; [done|].
    assert (top ∈ lane a S) as Htop by (rewrite Hlane; apply list_elem_of_here).
    apply lane_elem_lookup in Htop as (l & Hl & Htop).
    assert (l = top :: rest) as ->.
    { unfold lane in Hlane. by rewrite Hl in Hlane. }
    assert (Z.of_nat (Z.to_nat (S - 1)) + 1 = S) as Hidx by lia.
    split_and!; simpl.
    + rewrite <- Hperm.
      pose proof (concat_set_lane a S rest ltac:(lia)) as Hc.
      rewrite Hlane in Hc. simpl in Hc.
      apply (Permutation_app_inv_r rest).
      match type of Hc with
      | ?L ≡ₚ _ => transitivity (L ++ out.*1)
      end; [solve_Permutation|].
      rewrite Hc. solve_Permutation.
    + intros j k q Hk Hq.
      apply (set_lane_lookup a S rest j k ltac:(lia)) in Hk
        as [[-> ->]|[_ [Hk| ->]]].
      * apply (Hlanes _ _ q Hl). by apply list_elem_of_further.
      * by apply (Hlanes _ _ q Hk).
      * by apply elem_of_nil in Hq.
    + intros q T Hq. apply elem_of_cons in Hq as [[= -> ->]|Hq].
      * rewrite <- Hidx. apply (Hlanes _ _ top Hl). apply list_elem_of_here.
      * by apply Hout.
  - intros [= <-].
    pose proof (malloc_success _ _ _ _ Hwf Hm)
      as (Hb & _ & _ & _ & Hal & Hnn & Hfresh & Hwf').
    split; [done|]. split_and!; simpl.
    + rewrite concat_grown. rewrite <- Hperm. solve_Permutation.
    + intros j k q Hk Hq. apply grown_lookup_Some in Hk as [Hk| ->].
      * eapply buffer_for_old; [exact Hb|]. by apply (Hlanes _ _ q Hk).
      * by apply elem_of_nil in Hq.
    + intros q T Hq. apply elem_of_cons in Hq as [[= -> ->]|Hq].
      * split_and!; [|done|done]. by eapply block_size_new.
      * eapply buffer_for_old; [exact Hb|]. by apply Hout.
  - intros [= <-]. split; [done|]. split_and!; simpl.
    + by rewrite concat_grown.
    + intros j k q Hk Hq. apply grown_lookup_Some in Hk as [Hk| ->].
      * by apply (Hlanes _ _ q Hk).
      * by apply elem_of_nil in Hq.
    + done.
  - intros Htake. apply take_back_Permutation in Htake.
    assert (Z.of_nat (Z.to_nat (S - 1)) + 1 = S) as Hidx by lia.
    split; [done|]. split_and!; simpl.
    + rewrite <- Hperm, Htake. simpl.
      pose proof (concat_set_lane a S (p :: lane a S) ltac:(lia)) as Hc.
      simpl in Hc.
      apply (Permutation_app_inv_r (lane a S)).
      match type of Hc with
      | ?L ≡ₚ _ => transitivity (L ++ out'.*1)
      end; [solve_Permutation|].
      rewrite Hc. solve_Permutation.
    + intros j k q Hk Hq.
      apply (set_lane_lookup a S _ j k ltac:(lia)) in Hk
        as [[-> ->]|[_ [Hk| ->]]].
      * rewrite Hidx. apply elem_of_cons in Hq as [->|Hq].
        -- apply Hout. rewrite Htake. apply list_elem_of_here.
        -- apply lane_elem_lookup in Hq as (l & Hl & Hq).
           rewrite <- Hidx. by apply (Hlanes _ _ q Hl).
      * by apply (Hlanes _ _ q Hk).
      * by apply elem_of_nil in Hq.
    + intros q T Hq. apply Hout. rewrite Htake. by apply list_elem_of_further.
Qed.

Lemma checkouts_cons out e log :
  checkouts out (e :: log)
  = match track out e with
    | Some out' => checkouts out' log
    | None => None
    end.
Proof. done. Qed.

Lemma paired_run_calls cs : ∀ s out out',
  Forall call_typed cs →
  heap_wf s.2 → paired s out →
  checkouts out (run_calls cs s).1 = Some out' →
  heap_wf (run_calls cs s).2.2 ∧ paired (run_calls cs s).2 out'.
Proof.
  induction cs as [|c cs IH]; intros s out out' Hty Hwf Hpaired.
  - simpl. by intros [= <-].
  - apply Forall_cons in Hty as [Hc Hty]. rewrite run_calls_cons.
    cbn [fst snd]. rewrite checkouts_cons.
    destruct (track out (c, (run_call c s).1)) as [out1|] eqn:Htrack; [|done].
    intros Hrest.
    destruct (paired_step c s (run_call c s).1 (run_call c s).2 out out1)
      as [Hwf1 Hpaired1]; try done.
    { apply run_call_step; [done|]. by destruct (run_call c s). }
    by apply (IH _ out1 out').
Qed.

Lemma paired_init N h0 a0 :
  FixedArrayAllocator_ctor N = Ok a0 → paired (a0, h0) [].
Proof.
  intros [= <-]. split_and!; simpl.
  - done.
  - intros i l p Hl. by rewrite lookup_nil in Hl.
  - intros p S Hp. by apply elem_of_nil in Hp.
Qed.

Lemma owns_after_run_calls N h0 a0 cs :
  heap_wf h0 → FixedArrayAllocator_ctor N = Ok a0 →
  owns h0 (run_calls cs (a0, h0)).2.
Proof.
  intros Hwf Hctor.
  eapply (owns_run_calls h0 cs (a0, h0)); [by eapply owns_init|].
  apply surjective_pairing.
Qed.

(** X3. Conservation of buffers. When every [deallocate_array(p, S)] gives
    back a buffer that an [allocate_array(S)] returned and that is still
    checked out, the buffers in the lanes together with the checked-out
    ones are exactly the master list, each once: no buffer is lost, none
    is in two lanes or twice in one, and none is both in a lane and
    checked out. *)
Theorem buffers_in_lanes_or_checked_out N h0 a0 cs out :
  heap_wf h0 →
  FixedArrayAllocator_ctor N = Ok a0 →
  Forall call_typed cs →
  checkouts [] (run_calls cs (a0, h0)).1 = Some out →
  concat (m_pointer_stacks (run_calls cs (a0, h0)).2.1) ++ out.*1
  ≡ₚ m_all_pointers (run_calls cs (a0, h0)).2.1 ∧
  NoDup (concat (m_pointer_stacks (run_calls cs (a0, h0)).2.1) ++ out.*1).
Proof.
  intros Hwf Hctor Hty Hout.
  destruct (paired_run_calls cs (a0, h0) [] out Hty Hwf
              (paired_init N h0 a0 Hctor) Hout) as [_ (Hperm & _ & _)].
  split; [exact Hperm|]. rewrite Hperm.
  exact (owns_NoDup h0 _ (owns_after_run_calls N h0 a0 cs Hwf Hctor)).
Qed.

(** X4. The size invariant. Under the same pairing, every checked-out buffer
    of element size [S] is a live block of [m_array_length * S] bytes (the
    [uint] product), at a non-null address that is a multiple of 64,
    however often it went through its lane. *)
Theorem checked_out_buffer_capacity N h0 a0 cs out p S :
  heap_wf h0 →
  FixedArrayAllocator_ctor N = Ok a0 →
  Forall call_typed cs →
  checkouts [] (run_calls cs (a0, h0)).1 = Some out →
  (p, S) ∈ out →
  block_size (run_calls cs (a0, h0)).2.2 p = Some (uint_mul N S) ∧
  p mod 64 = 0 ∧ p ≠ nullptr.
Proof.
  intros Hwf Hctor Hty Hout Hp.
  destruct (paired_run_calls cs (a0, h0) [] out Hty Hwf
              (paired_init N h0 a0 Hctor) Hout) as [_ (_ & _ & Hbuf)].
  specialize (Hbuf p S Hp). unfold buffer_for in Hbuf.
  pose proof (run_calls_array_size cs (a0, h0)) as HN.
  unfold array_size in HN. rewrite HN in Hbuf.
  injection Hctor as <-. exact Hbuf.
Qed.

(** X5. No buffer is handed out twice. Under the same pairing, the buffer that
    one more [allocate_array] returns is none of the checked-out ones. *)
Theorem allocate_returns_no_checked_out_buffer N h0 a0 cs out S p s1 :
  heap_wf h0 →
  FixedArrayAllocator_ctor N = Ok a0 →
  Forall call_typed cs →
  checkouts [] (run_calls cs (a0, h0)).1 = Some out →
  is_uint S →
  allocate_array S (run_calls cs (a0, h0)).2 = (Ok p, s1) →
  p ∉ out.*1.
Proof.
  intros Hwf Hctor Hty Hout HS Hrun.
  destruct (paired_run_calls cs (a0, h0) [] out Hty Hwf
              (paired_init N h0 a0 Hctor) Hout) as [Hwf1 Hpaired].
  pose proof (owns_after_run_calls N h0 a0 cs Hwf Hctor) as Hown.
  assert (run_call (Allocate S) (run_calls cs (a0, h0)).2
          = (Ok (Some p), s1)) as Hcall.
  { simpl. unfold bind. by rewrite Hrun. }
  destruct (paired_step (Allocate S) _ _ s1 out ((p, S) :: out)
              Hwf1 Hpaired (run_call_step (Allocate S) _ _ _ HS Hcall) eq_refl)
    as [_ (Hperm & _ & _)].
  pose proof (owns_NoDup h0 s1 (owns_run_call h0 _ _ _ _ Hown Hcall)) as Hnd.
  rewrite <- Hperm in Hnd. simpl in Hnd.
  apply NoDup_app in Hnd as (_ & _ & Hnd).
  by apply NoDup_cons in Hnd as [Hnot _].
Qed.

Lemma empty_heap_wf : heap_wf empty_heap.
Proof.
  unfold heap_wf, empty_heap, block_addrs. simpl.
  split_and!; [lia|constructor|constructor].
Defined.

Lemma paired_calls_typed : Forall call_typed paired_calls.
Proof.
  unfold paired_calls.
  repeat (apply Forall_cons; split;
            [simpl; unfold is_uint; rewrite uint_modulus_eq; lia|]).
  constructor.
Defined.

Lemma buffers_in_lanes_or_checked_out_witness :
  heap_wf empty_heap ∧
  FixedArrayAllocator_ctor 100 = Ok allocator_100 ∧
  Forall call_typed paired_calls ∧
  checkouts [] (run_calls paired_calls (allocator_100, empty_heap)).1
  = Some paired_out ∧
  NoDup (concat (m_pointer_stacks
                   (run_calls paired_calls (allocator_100, empty_heap)).2.1)
         ++ paired_out.*1).
Proof.
  assert (checkouts [] (run_calls paired_calls (allocator_100, empty_heap)).1
          = Some paired_out) as Hout by (vm_compute; reflexivity).
  split; [exact empty_heap_wf|]. split; [reflexivity|].
  split; [exact paired_calls_typed|]. split; [exact Hout|].
  exact (proj2 (buffers_in_lanes_or_checked_out 100 empty_heap allocator_100
                  paired_calls paired_out empty_heap_wf eq_refl
                  paired_calls_typed Hout)).
Defined.

Lemma checked_out_buffer_capacity_witness :
  heap_wf empty_heap ∧
  FixedArrayAllocator_ctor 100 = Ok allocator_100 ∧
  Forall call_typed paired_calls ∧
  checkouts [] (run_calls paired_calls (allocator_100, empty_heap)).1
  = Some paired_out ∧
  (960, 8) ∈ paired_out ∧
  block_size (run_calls paired_calls (allocator_100, empty_heap)).2.2 960
  = Some (uint_mul 100 8) ∧
  960 mod 64 = 0 ∧ 960 ≠ nullptr.
Proof.
  assert (checkouts [] (run_calls paired_calls (allocator_100, empty_heap)).1
          = Some paired_out) as Hout by (vm_compute; reflexivity).
  assert ((960, 8) ∈ paired_out) as Hin by apply list_elem_of_here.
  split; [exact empty_heap_wf|]. split; [reflexivity|].
  split; [exact paired_calls_typed|]. split; [exact Hout|].
  split; [exact Hin|].
  exact (checked_out_buffer_capacity 100 empty_heap allocator_100
           paired_calls paired_out 960 8 empty_heap_wf eq_refl
           paired_calls_typed Hout Hin).
Defined.

Lemma allocate_returns_no_checked_out_buffer_witness :
  heap_wf empty_heap ∧
  FixedArrayAllocator_ctor 100 = Ok allocator_100 ∧
  Forall call_typed paired_calls ∧
  checkouts [] (run_calls paired_calls (allocator_100, empty_heap)).1
  = Some paired_out ∧
  is_uint 4 ∧
  allocate_array 4 (run_calls paired_calls (allocator_100, empty_heap)).2
  = (Ok 64,
     ({| m_all_pointers := [64; 512; 960];
         m_pointer_stacks := [[]; []; []; []; []; []; []; []];
         m_array_length := 100 |},
      {| blocks := [(64, 400); (512, 400); (960, 800)];
         brk := 1760; limit := 2 ^ 40; released := [] |})) ∧
  64 ∉ paired_out.*1.
Proof.
  assert (checkouts [] (run_calls paired_calls (allocator_100, empty_heap)).1
          = Some paired_out) as Hout by (vm_compute; reflexivity).
  assert (is_uint 4) as HS by (unfold is_uint; rewrite uint_modulus_eq; lia).
  assert (allocate_array 4
            (run_calls paired_calls (allocator_100, empty_heap)).2
          = (Ok 64,
             ({| m_all_pointers := [64; 512; 960];
                 m_pointer_stacks := [[]; []; []; []; []; []; []; []];
                 m_array_length := 100 |},
              {| blocks := [(64, 400); (512, 400); (960, 800)];
                 brk := 1760; limit := 2 ^ 40; released := [] |}))) as Hrun
    by (vm_compute; reflexivity).
  split; [exact empty_heap_wf|]. split; [reflexivity|].
  split; [exact paired_calls_typed|]. split; [exact Hout|].
  split; [exact HS|]. split; [exact Hrun|].
  exact (allocate_returns_no_checked_out_buffer 100 empty_heap allocator_100
           paired_calls paired_out 4 64 _ empty_heap_wf eq_refl
           paired_calls_typed Hout HS Hrun).
Defined.

(** ** Failed calls *)

(** X6. A call that fails leaves every buffer where it was. With a [uint]
    element size a call fails either on the assertion, at element size 0,
    and then nothing at all changes; or for want of memory, in an
    [allocate_array] on an empty lane, and then the master list, the heap
    and the content of every lane are as before (the lane vector may have
    grown by empty lanes). *)
Theorem failed_call_keeps_buffers c s e s1 :
  call_typed c →
  run_call c s = (Err e, s1) →
  m_all_pointers s1.1 = m_all_pointers s.1 ∧
  s1.2 = s.2 ∧
  (∀ S, lane s1.1 S = lane s.1 S) ∧
  concat (m_pointer_stacks s1.1) = concat (m_pointer_stacks s.1) ∧
  ((e = AssertionFailure ∧ call_size c = 0 ∧ s1 = s) ∨
   (e = OutOfMemory ∧ c = Allocate (call_size c) ∧ lane s.1 (call_size c) = [])).
Proof.
  intros Hty Hrun. apply run_call_step in Hrun; [|done].
  inversion Hrun; subst; simpl.
  - split_and!; try done. left. done.
  - split_and!; try done.
    + intros S'. apply lane_with_lane.
    + apply concat_grown.
    + right. done.
Qed.

Lemma failed_call_keeps_buffers_witness :
  call_typed (Allocate 4) ∧
  run_call (Allocate 4) (allocator_100, small_heap)
  = (Err OutOfMemory,
     ({| m_all_pointers := [];
         m_pointer_stacks := [[]; []; []; []];
         m_array_length := 100 |}, small_heap)) ∧
  ∀ S, lane {| m_all_pointers := [];
               m_pointer_stacks := [[]; []; []; []];
               m_array_length := 100 |} S = lane allocator_100 S.
Proof.
  assert (call_typed (Allocate 4)) as Hty
    by (simpl; unfold is_uint; rewrite uint_modulus_eq; lia).
  assert (run_call (Allocate 4) (allocator_100, small_heap)
          = (Err OutOfMemory,
             ({| m_all_pointers := [];
                 m_pointer_stacks := [[]; []; []; []];
                 m_array_length := 100 |}, small_heap))) as Hrun
    by (vm_compute; reflexivity).
  split; [exact Hty|]. split; [exact Hrun|].
  exact (proj1 (proj2 (proj2
    (failed_call_keeps_buffers _ _ _ _ Hty Hrun)))).
Defined.

(** ** A lane is a stack *)

Lemma run_calls_app cs1 cs2 s :
  run_calls (cs1 ++ cs2) s
  = ((run_calls cs1 s).1 ++ (run_calls cs2 (run_calls cs1 s).2).1,
     (run_calls cs2 (run_calls cs1 s).2).2).
Proof.
  revert s. induction cs1 as [|c cs1 IH]; intros s.
  - simpl. by destruct (run_calls cs2 s).
  - rewrite <- app_comm_cons, !run_calls_cons. cbn [fst snd].
    by rewrite IH.
Qed.

Lemma push_all S h ps : ∀ a,
  1 <= S < uint_modulus →
  ∃ a1,
    run_calls ((fun p => Deallocate p S) <$> ps) (a, h)
    = ((fun p => (Deallocate p S, Ok None)) <$> ps, (a1, h)) ∧
    lane a1 S = reverse ps ++ lane a S ∧
    (∀ S', 1 <= S' → S' ≠ S → lane a1 S' = lane a S') ∧
    m_all_pointers a1 = m_all_pointers a.
Proof.
  induction ps as [|p ps IH]; intros a HS.
  - exists a. by split_and!.
  - destruct (IH (set_lane a S (p :: lane a S)) HS)
      as (a1 & Hrun & Hlane & Hothers & Hmaster).
    exists a1. split_and!.
    + rewrite !fmap_cons, run_calls_cons. simpl. unfold bind, on_fst. simpl.
      rewrite deallocate_array_ok by done. simpl. by rewrite Hrun.
    + rewrite Hlane, lane_set_lane_eq by lia.
      by rewrite reverse_cons, <- app_assoc.
    + intros S' HS' Hne. rewrite Hothers by done.
      apply lane_set_lane_ne; [lia|done|done].
    + by rewrite Hmaster.
Qed.

Lemma pop_all S h qs : ∀ a rest,
  1 <= S < uint_modulus →
  lane a S = qs ++ rest →
  ∃ a1,
    run_calls (replicate (length qs) (Allocate S)) (a, h)
    = ((fun p => (Allocate S, Ok (Some p))) <$> qs, (a1, h)) ∧
    lane a1 S = rest ∧
    (∀ S', 1 <= S' → S' ≠ S → lane a1 S' = lane a S') ∧
    m_all_pointers a1 = m_all_pointers a.
Proof.
  induction qs as [|q qs IH]; intros a rest HS Hlane.
  - exists a. by split_and!.
  - destruct (IH (set_lane a S (qs ++ rest)) rest HS)
      as (a1 & Hrun & Hlane1 & Hothers & Hmaster).
    { apply lane_set_lane_eq. lia. }
    exists a1. split_and!.
    + simpl replicate. rewrite !fmap_cons, run_calls_cons. simpl. unfold bind.
      rewrite (allocate_array_reuse a h S q (qs ++ rest)) by done.
      simpl. by rewrite Hrun.
    + done.
    + intros S' HS' Hne. rewrite Hothers by done.
      apply lane_set_lane_ne; [lia|done|done].
    + by rewrite Hmaster.
Qed.

(** X7. Returning the buffers [ps] under one element size, in order, and then
    calling [allocate_array] of that size as many times hands them out
    again in reverse order; no block is allocated, and every lane and the
    master list end as they started. *)
Theorem lane_is_a_stack a h S ps :
  1 <= S < uint_modulus →
  ∃ a1,
    run_calls (((fun p => Deallocate p S) <$> ps)
               ++ replicate (length ps) (Allocate S)) (a, h)
    = (((fun p => (Deallocate p S, Ok None)) <$> ps)
       ++ ((fun p => (Allocate S, Ok (Some p))) <$> reverse ps),
       (a1, h)) ∧
    (∀ S', 1 <= S' → lane a1 S' = lane a S') ∧
    m_all_pointers a1 = m_all_pointers a.
Proof.
  intros HS.
  destruct (push_all S h ps a HS) as (a1 & Hpush & Hlane1 & Hothers1 & Hm1).
  destruct (pop_all S h (reverse ps) a1 (lane a S) HS Hlane1)
    as (a2 & Hpop & Hlane2 & Hothers2 & Hm2).
  rewrite length_reverse in Hpop.
  exists a2. split_and!.
  - rewrite run_calls_app, Hpush. cbn [fst snd]. by rewrite Hpop.
  - intros S' HS'. destruct (decide (S' = S)) as [->|Hne]; [done|].
    by rewrite Hothers2, Hothers1.
  - by rewrite Hm2, Hm1.
Qed.

Lemma lane_is_a_stack_witness :
  (1 <= 4 < uint_modulus) ∧
  ∃ a1,
    run_calls [Deallocate 64 4; Deallocate 128 4; Deallocate 192 4;
               Allocate 4; Allocate 4; Allocate 4] (allocator_100, empty_heap)
    = ([(Deallocate 64 4, Ok None); (Deallocate 128 4, Ok None);
        (Deallocate 192 4, Ok None); (Allocate 4, Ok (Some 192));
        (Allocate 4, Ok (Some 128)); (Allocate 4, Ok (Some 64))],
       (a1, empty_heap)) ∧
    m_all_pointers a1 = [].
Proof.
  assert (1 <= 4 < uint_modulus) as HS by (rewrite uint_modulus_eq; lia).
  split; [exact HS|].
  destruct (lane_is_a_stack allocator_100 empty_heap 4 [64; 128; 192] HS)
    as (a1 & Hrun & _ & Hmaster).
  exists a1. split; [exact Hrun|exact Hmaster].
Defined.

(** ** Typed allocation *)

(** X8. Lanes are keyed by size, not by type: a buffer returned with
    [deallocate_array<T>] is what the next [allocate_array<U>] returns
    whenever [sizeof(U)] and [sizeof(T)] are the same [uint] value, without
    a new block; and an [allocate_array<V>] of another size, made first,
    does not take it. *)
Theorem typed_buffers_shared_by_size a h p sizeof_T sizeof_U sizeof_V :
  1 <= to_uint sizeof_T →
  to_uint sizeof_U = to_uint sizeof_T →
  1 <= to_uint sizeof_V →
  to_uint sizeof_V ≠ to_uint sizeof_T →
  ∃ a1,
    deallocate_array_typed p sizeof_T a = (Ok tt, a1) ∧
    (∃ a2, allocate_array_typed sizeof_U (a1, h) = (Ok p, (a2, h)) ∧
           m_all_pointers a2 = m_all_pointers a) ∧
    (∀ r a2 h2,
       allocate_array_typed sizeof_V (a1, h) = (r, (a2, h2)) →
       lane a2 (to_uint sizeof_T) = p :: lane a (to_uint sizeof_T) ∧
       ∃ a3, allocate_array_typed sizeof_U (a2, h2) = (Ok p, (a3, h2))).
Proof.
  intros HT HU HV Hne.
  pose proof (to_uint_is_uint sizeof_T) as [_ HT'].
  pose proof (to_uint_is_uint sizeof_V) as [_ HV'].
  unfold allocate_array_typed, deallocate_array_typed. rewrite HU.
  set (T := to_uint sizeof_T) in *. set (V := to_uint sizeof_V) in *.
  exists (set_lane a T (p :: lane a T)). split_and!.
  - by apply deallocate_array_ok.
  - exists (set_lane (set_lane a T (p :: lane a T)) T (lane a T)).
    split; [|done].
    apply allocate_array_reuse; [done|]. apply lane_set_lane_eq. lia.
  - intros r a2 h2 Hrun.
    assert (call_step (Allocate V) (set_lane a T (p :: lane a T), h)
              (match r with Ok q => Ok (Some q) | Err e => Err e end)
              (a2, h2)) as Hstep.
    { apply run_call_step; [simpl; unfold is_uint; lia|].
      simpl. unfold bind. rewrite Hrun. by destruct r. }
    assert (lane a2 T = p :: lane a T) as Hlane.
    { inversion Hstep; subst; simpl in *; try lia.
      - rewrite lane_set_lane_ne by lia. apply lane_set_lane_eq. lia.
      - change (lane (with_lane (set_lane a T (p :: lane a T)) V) T
                = p :: lane a T).
        rewrite lane_with_lane. apply lane_set_lane_eq. lia.
      - rewrite lane_with_lane. apply lane_set_lane_eq. lia. }
    split; [done|]. eexists. by apply allocate_array_reuse.
Qed.

Lemma typed_buffers_shared_by_size_witness :
  1 <= to_uint 4 ∧ to_uint 4 = to_uint 4 ∧ 1 <= to_uint 8 ∧
  to_uint 8 ≠ to_uint 4 ∧
  ∃ a1,
    deallocate_array_typed 64 4 checked_out_allocator = (Ok tt, a1) ∧
    ∃ a2, allocate_array_typed 4 (a1, checked_out_heap)
          = (Ok 64, (a2, checked_out_heap)) ∧
          m_all_pointers a2 = m_all_pointers checked_out_allocator.
Proof.
  assert (1 <= to_uint 4) as HT by (vm_compute; discriminate).
  assert (to_uint 4 = to_uint 4) as HU by reflexivity.
  assert (1 <= to_uint 8) as HV by (vm_compute; discriminate).
  assert (to_uint 8 ≠ to_uint 4) as Hne by (vm_compute; discriminate).
  split; [exact HT|]. split; [exact HU|]. split; [exact HV|].
  split; [exact Hne|].
  destruct (typed_buffers_shared_by_size checked_out_allocator
              checked_out_heap 64 4 4 8 HT HU HV Hne) as (a1 & Hd & Ha & _).
  exists a1. split; [exact Hd|exact Ha].
Defined.

(** ** Scoped allocation *)

Lemma allocator_call_heap_run {A} r (m : M (FixedArrayAllocator * heap) A)
    w h a res a1 h1 :
  allocators w !! r = Some a →
  m (a, h) = (res, (a1, h1)) →
  allocator_call_heap r m (w, h)
  = (res, ({| allocators := <[r := a1]> (allocators w);
              scoped := scoped w |}, h1)).
Proof.
  intros Ha Hm. unfold allocator_call_heap. simpl. by rewrite Ha, Hm.
Qed.

(** X9. The scoped round trip. When [allocate_array(S)] on the allocator
    returns a non-null buffer, [allocate_array_scoped(S)] stores a handle
    on that buffer, bound to that allocator and to [S]; destroying the
    handle pushes the buffer on the lane for [S] of that allocator and
    touches no other allocator and no handle; the next [allocate_array(S)]
    returns the same buffer without a new block. *)
Theorem scoped_allocation_round_trip w h this result S a p a1 h1 :
  1 <= S < uint_modulus →
  allocators w !! this = Some a →
  allocate_array S (a, h) = (Ok p, (a1, h1)) →
  p ≠ nullptr →
  ∃ w1 w2 a2,
    allocate_array_scoped this result S (w, h) = (Ok tt, (w1, h1)) ∧
    scoped w1 !! result
    = Some {| m_allocator := this; m_ptr := p; m_element_size := S |} ∧
    (∀ x, x ≠ result → scoped w1 !! x = scoped w !! x) ∧
    ScopedAllocation_dtor result w1 = (Ok tt, w2) ∧
    scoped w2 = scoped w1 ∧
    allocators w2 !! this = Some a2 ∧
    (∀ r, r ≠ this → allocators w2 !! r = allocators w !! r) ∧
    lane a2 S = p :: lane a1 S ∧
    m_all_pointers a2 = m_all_pointers a1 ∧
    ∃ a3, allocate_array S (a2, h1) = (Ok p, (a3, h1)) ∧
          lane a3 S = lane a1 S.
Proof.
  intros HS Ha Hrun Hp.
  eexists _, _, (set_lane a1 S (p :: lane a1 S)). split_and!.
  - unfold allocate_array_scoped, bind.
    rewrite (allocator_call_heap_run this _ w h a (Ok p) a1 h1 Ha Hrun).
    reflexivity.
  - simpl. by rewrite lookup_insert_eq.
  - intros x Hx. simpl. by rewrite lookup_insert_ne.
  - eapply dtor_holding; simpl; [by rewrite lookup_insert_eq|done| |done].
    by rewrite lookup_insert_eq.
  - done.
  - simpl. by rewrite lookup_insert_eq.
  - intros r Hr. simpl. by rewrite !lookup_insert_ne.
  - apply lane_set_lane_eq. lia.
  - done.
  - eexists. split.
    + apply allocate_array_reuse; [done|]. apply lane_set_lane_eq. lia.
    + apply lane_set_lane_eq. lia.
Qed.

Lemma scoped_allocation_round_trip_witness :
  (1 <= 4 < uint_modulus) ∧
  allocators no_handle !! 0%nat = Some allocator_100 ∧
  allocate_array 4 (allocator_100, empty_heap)
  = (Ok 64, (checked_out_allocator, checked_out_heap)) ∧
  64 ≠ nullptr ∧
  ∃ w1 w2 a2,
    allocate_array_scoped 0 1 4 (no_handle, empty_heap)
    = (Ok tt, (w1, checked_out_heap)) ∧
    scoped w1 !! 1%nat = Some handle_64 ∧
    ScopedAllocation_dtor 1 w1 = (Ok tt, w2) ∧
    allocators w2 !! 0%nat = Some a2 ∧
    lane a2 4 = [64].
Proof.
  assert (1 <= 4 < uint_modulus) as HS by (rewrite uint_modulus_eq; lia).
  assert (allocators no_handle !! 0%nat = Some allocator_100) as Ha
    by (vm_compute; reflexivity).
  assert (allocate_array 4 (allocator_100, empty_heap)
          = (Ok 64, (checked_out_allocator, checked_out_heap))) as Hrun
    by (vm_compute; reflexivity).
  assert (64 ≠ nullptr) as Hp by (unfold nullptr; lia).
  split; [exact HS|]. split; [exact Ha|]. split; [exact Hrun|].
  split; [exact Hp|].
  destruct (scoped_allocation_round_trip no_handle empty_heap 0 1 4
              allocator_100 64 checked_out_allocator checked_out_heap
              HS Ha Hrun Hp)
    as (w1 & w2 & a2 & Hs & Hh & _ & Hd & _ & Ha2 & _ & Hlane & _).
  exists w1, w2, a2.
  split; [exact Hs|]. split; [exact Hh|]. split; [exact Hd|].
  split; [exact Ha2|exact Hlane].
Defined.

(** ** Move assignment at the edges *)

(** X11. Assigning to a handle that holds no buffer returns nothing: no
    allocator is touched (the allocator and element size the target
    recorded are not even looked at), the target takes the members of the
    source and the source is left without a buffer. *)
Theorem move_assign_onto_empty w this other t o :
  this ≠ other →
  scoped w !! this = Some t →
  m_ptr t = nullptr →
  scoped w !! other = Some o →
  ∃ w1,
    ScopedAllocation_move_assign this other w = (Ok tt, w1) ∧
    allocators w1 = allocators w ∧
    scoped w1 !! this = Some o ∧
    scoped w1 !! other = Some (moved_from o) ∧
    (∀ x, x ≠ this → x ≠ other → scoped w1 !! x = scoped w !! x).
Proof.
  intros Hne Ht Hnull Ho. eexists. split_and!.
  - unfold ScopedAllocation_move_assign, bind.
    rewrite (dtor_empty w this t Ht Hnull).
    by rewrite (move_ctor_ok w this other o Ho).
  - done.
  - simpl. by rewrite lookup_insert_ne, lookup_insert_eq.
  - simpl. by rewrite lookup_insert_eq.
  - intros x Hx Hx'. simpl. by rewrite !lookup_insert_ne.
Qed.

Lemma move_assign_onto_empty_witness :
  2%nat ≠ 1%nat ∧
  scoped emptied_handle !! 2%nat = Some (moved_from handle_512) ∧
  m_ptr (moved_from handle_512) = nullptr ∧
  scoped emptied_handle !! 1%nat = Some handle_64 ∧
  ∃ w1,
    ScopedAllocation_move_assign 2 1 emptied_handle = (Ok tt, w1) ∧
    allocators w1 = allocators emptied_handle ∧
    scoped w1 !! 2%nat = Some handle_64 ∧
    scoped w1 !! 1%nat = Some (moved_from handle_64).
Proof.
  assert (2%nat ≠ 1%nat) as Hne by lia.
  assert (scoped emptied_handle !! 2%nat = Some (moved_from handle_512))
    as Ht by (vm_compute; reflexivity).
  assert (m_ptr (moved_from handle_512) = nullptr) as Hnull by reflexivity.
  assert (scoped emptied_handle !! 1%nat = Some handle_64) as Ho
    by (vm_compute; reflexivity).
  split; [exact Hne|]. split; [exact Ht|]. split; [exact Hnull|].
  split; [exact Ho|].
  destruct (move_assign_onto_empty emptied_handle 2 1 _ _ Hne Ht Hnull Ho)
    as (w1 & Hrun & Hal & Hthis & Hother & _).
  exists w1. split; [exact Hrun|]. split; [exact Hal|].
  split; [exact Hthis|exact Hother].
Defined.

(** X12. Assigning a handle that holds a buffer to itself: the destructor
    returns the buffer to its lane, once, and the move constructor then
    clears the buffer of the handle, which afterwards converts to
    [nullptr] and returns nothing when it is destroyed. *)
Theorem move_assign_to_itself w this t a :
  scoped w !! this = Some t →
  m_ptr t ≠ nullptr →
  allocators w !! m_allocator t = Some a →
  1 <= m_element_size t < uint_modulus →
  ∃ w1 a1,
    ScopedAllocation_move_assign this this w = (Ok tt, w1) ∧
    allocators w1 = <[m_allocator t := a1]> (allocators w) ∧
    lane a1 (m_element_size t) = m_ptr t :: lane a (m_element_size t) ∧
    ScopedAllocation_get <$> scoped w1 !! this = Some nullptr ∧
    ScopedAllocation_dtor this w1 = (Ok tt, w1).
Proof.
  intros Ht Hptr Ha Hes. eexists _, _. split_and!.
  - by apply move_assign_self.
  - done.
  - apply lane_set_lane_eq. lia.
  - simpl. by rewrite lookup_insert_eq.
  - eapply dtor_empty; simpl; [by rewrite lookup_insert_eq|done].
Qed.

Lemma move_assign_to_itself_witness :
  scoped one_handle !! 1%nat = Some handle_64 ∧
  m_ptr handle_64 ≠ nullptr ∧
  allocators one_handle !! m_allocator handle_64 = Some checked_out_allocator ∧
  (1 <= m_element_size handle_64 < uint_modulus) ∧
  ∃ w1 a1,
    ScopedAllocation_move_assign 1 1 one_handle = (Ok tt, w1) ∧
    lane a1 4 = [64] ∧
    ScopedAllocation_get <$> scoped w1 !! 1%nat = Some nullptr.
Proof.
  assert (scoped one_handle !! 1%nat = Some handle_64) as Ht
    by (vm_compute; reflexivity).
  assert (m_ptr handle_64 ≠ nullptr) as Hptr by (simpl; unfold nullptr; lia).
  assert (allocators one_handle !! m_allocator handle_64
          = Some checked_out_allocator) as Ha by (vm_compute; reflexivity).
  assert (1 <= m_element_size handle_64 < uint_modulus) as Hes
    by (simpl; rewrite uint_modulus_eq; lia).
  split; [exact Ht|]. split; [exact Hptr|]. split; [exact Ha|].
  split; [exact Hes|].
  destruct (move_assign_to_itself one_handle 1 handle_64
              checked_out_allocator Ht Hptr Ha Hes)
    as (w1 & a1 & Hrun & _ & Hlane & Hget & _).
  exists w1, a1. split; [exact Hrun|]. split; [exact Hlane|exact Hget].
Defined.

(** ** A buffer returned under another size *)

(** X13. Sizes are not checked on return. A buffer freshly allocated for element
    size [S] and given back with [deallocate_array(p, S')] is what the next
    [allocate_array(S')] returns, with no new block: the caller asking for
    [S'] gets the block of [m_array_length * S] bytes, whatever [S'] is. *)
Theorem returned_size_is_not_checked a h S S' p a1 h1 :
  1 <= S < uint_modulus →
  1 <= S' < uint_modulus →
  heap_wf h →
  lane a S = [] →
  allocate_array S (a, h) = (Ok p, (a1, h1)) →
  ∃ a2 a3,
    deallocate_array p S' a1 = (Ok tt, a2) ∧
    allocate_array S' (a2, h1) = (Ok p, (a3, h1)) ∧
    block_size h1 p = Some (uint_mul (m_array_length a) S) ∧
    m_array_length a3 = m_array_length a ∧
    m_all_pointers a3 = m_all_pointers a ++ [p].
Proof.
  intros HS HS' Hwf Hlane Hrun.
  destruct (allocate_array_fresh_block a h S p a1 h1 HS Hwf Hlane Hrun)
    as (Hsize & _ & _ & Hmaster).
  pose proof (allocate_array_cases S a h (Ok p) a1 h1 Hrun) as [Hlen _].
  exists (set_lane a1 S' (p :: lane a1 S')),
         (set_lane (set_lane a1 S' (p :: lane a1 S')) S' (lane a1 S')).
  split_and!.
  - by apply deallocate_array_ok.
  - apply allocate_array_reuse; [done|]. apply lane_set_lane_eq. lia.
  - done.
  - done.
  - done.
Qed.

Lemma returned_size_is_not_checked_witness :
  (1 <= 4 < uint_modulus) ∧ (1 <= 8 < uint_modulus) ∧
  heap_wf empty_heap ∧
  lane allocator_100 4 = [] ∧
  allocate_array 4 (allocator_100, empty_heap)
  = (Ok 64, (checked_out_allocator, checked_out_heap)) ∧
  ∃ a2 a3,
    deallocate_array 64 8 checked_out_allocator = (Ok tt, a2) ∧
    allocate_array 8 (a2, checked_out_heap) = (Ok 64, (a3, checked_out_heap)) ∧
    block_size checked_out_heap 64 = Some (uint_mul 100 4).
Proof.
  assert (1 <= 4 < uint_modulus) as HS by (rewrite uint_modulus_eq; lia).
  assert (1 <= 8 < uint_modulus) as HS' by (rewrite uint_modulus_eq; lia).
  assert (lane allocator_100 4 = []) as Hlane by reflexivity.
  assert (allocate_array 4 (allocator_100, empty_heap)
          = (Ok 64, (checked_out_allocator, checked_out_heap))) as Hrun
    by (vm_compute; reflexivity).
  split; [exact HS|]. split; [exact HS'|]. split; [exact empty_heap_wf|].
  split; [exact Hlane|]. split; [exact Hrun|].
  destruct (returned_size_is_not_checked allocator_100 empty_heap 4 8 64
              checked_out_allocator checked_out_heap
              HS HS' empty_heap_wf Hlane Hrun)
    as (a2 & a3 & Hd & Ha & Hsize & _).
  exists a2, a3. split; [exact Hd|]. split; [exact Ha|exact Hsize].
Defined.
